(** * py-param-cad: validation engine, revision store and generation pipeline

    Shallow embedding of
    - [cad_generator/core/validation_engine.py]  (Severity, ValidationMessage,
      ValidationResult, ValidationEngine.validate),
    - [cad_generator/data/repositories.py]       (RevisionRepository,
      _increment_revision_code),
    - [cad_generator/data/models.py]             (Revision and its
      [parameters] JSON property),
    - [cad_generator/core/piece_controller.py]   (PieceController.generate). *)

From Stdlib Require Import String Ascii List Bool Arith Lia ZArith.
From Stdlib Require Import Permutation Sorting.Sorted.
Import ListNotations.
Open Scope string_scope.
Open Scope list_scope.

(* ================================================================== *)
(** ** Python exceptions that escape the modelled functions *)

Inductive PyException :=
  (** [ValueError(...)]; the payload is the rejected value. *)
  | ValueError (detail : string)
  (** [sqlalchemy.exc.IntegrityError] raised by a flush that violates a
      UNIQUE constraint; the payload names the constraint. *)
  | IntegrityError (constraint : string).

(** A computation that returns a value or raises. *)
Inductive outcome (A : Type) :=
  | Ok (a : A)
  | Raise (e : PyException).
Arguments Ok {A} a.
Arguments Raise {A} e.

Definition raised {A} (o : outcome A) : bool :=
  match o with Raise _ => true | Ok _ => false end.

(* ================================================================== *)
(** ** Python values of a parameter dict

    Parameter values are numbers, booleans or strings.  A Python [float]
    is an IEEE-754 double ([spec_float]); a Python [int] is an unbounded
    integer.

    A Rocq [string] stands for a Python [str] whose code points are all
    below 256: one [ascii] (an 8-bit value) per code point, in the
    Latin-1 numbering, so ['ñ'] is the single character 241.  Python
    strings with larger code points are outside the model. *)

From Stdlib Require Import Floats.SpecFloat.

Inductive pyval :=
  | PInt (z : Z)
  | PFloat (f : spec_float)
  | PBool (b : bool)
  | PStr (s : string).

(** A [dict] of parameters, in insertion order, keys distinct. *)
Definition Params := list (string * pyval).

(* ================================================================== *)
(** ** validation_engine.py *)

Module Validation.

(** [class Severity(str, Enum): ERROR = "error"; WARNING = "warning"] *)
Inductive Severity := ERROR | WARNING.

Definition Severity_eqb (a b : Severity) : bool :=
  match a, b with
  | ERROR, ERROR | WARNING, WARNING => true
  | _, _ => false
  end.

(** [Severity(value)]: lookup by value; any other value raises
    [ValueError("... is not a valid Severity")]. *)
Definition Severity_of_value (v : string) : outcome Severity :=
  if String.eqb v "error" then Ok ERROR
  else if String.eqb v "warning" then Ok WARNING
  else Raise (ValueError v).

Record ValidationMessage := mkMessage {
  rule_id : string;
  severity : Severity;
  message : string
}.

Record ValidationResult := mkResult {
  is_valid : bool;
  messages : list ValidationMessage
}.

Definition is_error (m : ValidationMessage) : bool :=
  Severity_eqb (severity m) ERROR.
Definition is_warning (m : ValidationMessage) : bool :=
  Severity_eqb (severity m) WARNING.

(** [ValidationResult.errors] / [ValidationResult.warnings] *)
Definition errors (r : ValidationResult) : list ValidationMessage :=
  filter is_error (messages r).
Definition warnings (r : ValidationResult) : list ValidationMessage :=
  filter is_warning (messages r).

(** A rule dict from the catalog; [None] is a missing key, read with
    [rule.get(key, default)]. *)
Record Rule := mkRule {
  r_rule_id : option string;
  r_expression : option string;
  r_severity : option string;
  r_message : option string
}.

Definition dict_get (v : option string) (default : string) : string :=
  match v with Some s => s | None => default end.

(** The outcome of [bool(eval(expression, _SAFE_GLOBALS, parameters))]:
    the truth value, or the exception raised by [eval] or by [bool],
    given by [str(exc)]. *)
Inductive EvalResult :=
  | Evaluated (passed : bool)
  | EvalRaised (exc : string).

Section Validate.

(** The restricted [eval] of a rule expression against the parameters.
    [eval] receives the parameter dict itself as its local namespace, so
    an expression with an assignment ([x := 0]) rebinds a parameter for
    the rules after it and for the caller; such expressions are outside
    this model, where every rule sees the same parameters. *)
Variable py_eval : string -> Params -> EvalResult.

(** The body of [for rule in rules:] for one rule, appending to
    [messages]. *)
Definition validate_rule (parameters : Params) (messages : list ValidationMessage)
    (rule : Rule) : outcome (list ValidationMessage) :=
  let rule_id := dict_get (r_rule_id rule) "UNKNOWN" in
  let expression := dict_get (r_expression rule) "True" in
  match Severity_of_value (dict_get (r_severity rule) "error") with
  | Raise e => Raise e
  | Ok severity =>
      let message := dict_get (r_message rule) "Validation failed." in
      match py_eval expression parameters with
      | EvalRaised exc =>
          Ok (messages ++ [mkMessage rule_id ERROR
                ("[Error evaluando regla: " ++ exc ++ "] " ++ message)])
      | Evaluated passed =>
          if negb passed
          then Ok (messages ++ [mkMessage rule_id severity message])
          else Ok messages
      end
  end.

Fixpoint validate_loop (parameters : Params) (messages : list ValidationMessage)
    (rules : list Rule) : outcome (list ValidationMessage) :=
  match rules with
  | [] => Ok messages
  | rule :: rest =>
      match validate_rule parameters messages rule with
      | Raise e => Raise e
      | Ok messages' => validate_loop parameters messages' rest
      end
  end.

(** [ValidationEngine.validate(parameters, rules)] *)
Definition validate (parameters : Params) (rules : list Rule)
    : outcome ValidationResult :=
  match validate_loop parameters [] rules with
  | Raise e => Raise e
  | Ok messages =>
      let has_errors := existsb is_error messages in
      Ok (mkResult (negb has_errors) messages)
  end.

End Validate.

End Validation.

(* ================================================================== *)
(** ** repositories.py: [_increment_revision_code]

    Characters are modelled as ASCII; [str.upper] is the ASCII case map
    and [chr(ord(c) + 1)] the next code point.  Revision codes are
    alphabetic. *)

Module RevisionCode.

Definition upper_char (c : ascii) : ascii :=
  if (Ascii.leb "a" c && Ascii.leb c "z")%char
  then ascii_of_nat (nat_of_ascii c - 32)
  else c.

(** [chr(ord(c) + 1)] *)
Definition succ_char (c : ascii) : ascii := ascii_of_nat (S (nat_of_ascii c)).

(** [chars[idx] = x] for an index in range. *)
Fixpoint set_nth {A} (i : nat) (x : A) (l : list A) : list A :=
  match l, i with
  | [], _ => []
  | _ :: t, 0 => x :: t
  | h :: t, S j => h :: set_nth j x t
  end.

(** [while carry and idx >= 0: ...]; [k] is [idx + 1], the loop starts
    with [carry = True].  Returns the characters and the final [carry]. *)
Fixpoint carry_loop (k : nat) (chars : list ascii) : list ascii * bool :=
  match k with
  | 0 => (chars, true)
  | S idx =>
      if Ascii.eqb (nth idx chars "A"%char) "Z"%char
      then carry_loop idx (set_nth idx "A"%char chars)
      else (set_nth idx (succ_char (nth idx chars "A"%char)) chars, false)
  end.

(** [_increment_revision_code(code)] on the list of characters. *)
Definition increment_chars (code : list ascii) : list ascii :=
  let chars := map upper_char code in
  let (chars', carry) := carry_loop (length chars) chars in
  if carry then "A"%char :: chars' else chars'.

Definition _increment_revision_code (code : string) : string :=
  string_of_list_ascii (increment_chars (list_ascii_of_string code)).

End RevisionCode.

(* ================================================================== *)
(** ** [json.dumps(value, ensure_ascii=False)] and [json.loads] on a flat
    parameter dict, and [json.dumps] of a list of strings

    The JSON text is a list of symbols: characters, and the text
    [repr(f)] of a finite float [f], kept as one symbol.  Python's
    [float(repr(f))] returns [f] exactly, so the decoder reads the symbol
    back as [f].  Characters are code points below 256, as for [string]. *)

Module Json.

Inductive jsym :=
  | Ch (c : ascii)
  | FloatRepr (f : spec_float).

Definition JsonText := list jsym.

Definition chars (s : string) : JsonText := map Ch (list_ascii_of_string s).

(** Hexadecimal digits, lower case as in ['\\u{0:04x}'.format(i)]. *)
Definition hex_digit (n : nat) : ascii :=
  if Nat.ltb n 10 then ascii_of_nat (48 + n) else ascii_of_nat (87 + n).

(** [ESCAPE_DCT] of [json.encoder]: the replacement of one character. *)
Definition escape_char (c : ascii) : list ascii :=
  let n := nat_of_ascii c in
  if Nat.eqb n 34 then ["\"; "034"]%char
  else if Nat.eqb n 92 then ["\"; "\"]%char
  else if Nat.eqb n 8 then ["\"; "b"]%char
  else if Nat.eqb n 12 then ["\"; "f"]%char
  else if Nat.eqb n 10 then ["\"; "n"]%char
  else if Nat.eqb n 13 then ["\"; "r"]%char
  else if Nat.eqb n 9 then ["\"; "t"]%char
  else if Nat.ltb n 32 then ["\"; "u"; "0"; "0"; hex_digit (n / 16); hex_digit (n mod 16)]%char
  else [c].

(** [py_encode_basestring(s)]: ['"' + ESCAPE.sub(replace, s) + '"'] *)
Definition encode_basestring (s : string) : JsonText :=
  Ch "034"%char :: map Ch (flat_map escape_char (list_ascii_of_string s)) ++ [Ch "034"%char].

(** [int.__repr__]: optional minus sign, then the decimal digits.  The
    conversion raises [ValueError] for more than [int_max_str_digits]
    digits; see [int_repr_ok]. *)
Definition digit_char (d : nat) : ascii := ascii_of_nat (48 + d).

Fixpoint uint_chars (u : Decimal.uint) : list ascii :=
  match u with
  | Decimal.Nil => []
  | Decimal.D0 u => digit_char 0 :: uint_chars u
  | Decimal.D1 u => digit_char 1 :: uint_chars u
  | Decimal.D2 u => digit_char 2 :: uint_chars u
  | Decimal.D3 u => digit_char 3 :: uint_chars u
  | Decimal.D4 u => digit_char 4 :: uint_chars u
  | Decimal.D5 u => digit_char 5 :: uint_chars u
  | Decimal.D6 u => digit_char 6 :: uint_chars u
  | Decimal.D7 u => digit_char 7 :: uint_chars u
  | Decimal.D8 u => digit_char 8 :: uint_chars u
  | Decimal.D9 u => digit_char 9 :: uint_chars u
  end.

Definition int_repr (z : Z) : JsonText :=
  match Z.to_int z with
  | Decimal.Pos u => map Ch (uint_chars u)
  | Decimal.Neg u => Ch "-"%char :: map Ch (uint_chars u)
  end.

(** [sys.get_int_max_str_digits()]: 4300 unless configured otherwise. *)
Definition int_max_str_digits : nat := 4300.

(** The number of decimal digits of [z], the sign not counted. *)
Definition int_digits (z : Z) : nat :=
  match Z.to_int z with
  | Decimal.Pos u => length (uint_chars u)
  | Decimal.Neg u => length (uint_chars u)
  end.

(** [int.__repr__(z)] returns, rather than raising [ValueError]. *)
Definition int_repr_ok (z : Z) : bool := Nat.leb (int_digits z) int_max_str_digits.

(** [floatstr] of [json.encoder] with [allow_nan=True]. *)
Definition floatstr (f : spec_float) : JsonText :=
  match f with
  | S754_nan => chars "NaN"
  | S754_infinity false => chars "Infinity"
  | S754_infinity true => chars "-Infinity"
  | _ => [FloatRepr f]
  end.

(** Encoding of one value: [True] -> [true], [False] -> [false], ints,
    floats and strings as above. *)
Definition dumps_value (v : pyval) : JsonText :=
  match v with
  | PBool true => chars "true"
  | PBool false => chars "false"
  | PInt z => int_repr z
  | PFloat f => floatstr f
  | PStr s => encode_basestring s
  end.

Definition dumps_item (kv : string * pyval) : JsonText :=
  encode_basestring (fst kv) ++ chars ": " ++ dumps_value (snd kv).

Fixpoint join_items (items : Params) : JsonText :=
  match items with
  | [] => []
  | [kv] => dumps_item kv
  | kv :: rest => dumps_item kv ++ chars ", " ++ join_items rest
  end.

(** The text [json.dumps(d, ensure_ascii=False)] writes for a dict:
    ['{' + ', '.join(...) + '}'], when it returns. *)
Definition dumps (d : Params) : JsonText :=
  Ch "{"%char :: join_items d ++ [Ch "}"%char].

(** Encoding a value returns: only an [int] can raise, in [int.__repr__]. *)
Definition value_ok (v : pyval) : bool :=
  match v with PInt z => int_repr_ok z | _ => true end.

Definition int_limit_message : string :=
  "Exceeds the limit (4300 digits) for integer string conversion; use sys.set_int_max_str_digits() to increase the limit".

(** [json.dumps(d, ensure_ascii=False)]: the text, or the [ValueError]
    of an [int] with too many digits. *)
Definition dumps_checked (d : Params) : outcome JsonText :=
  if forallb (fun kv => value_ok (snd kv)) d then Ok (dumps d)
  else Raise (ValueError int_limit_message).

(** [ESCAPE_ASCII] of [json.encoder] ([ensure_ascii=True]): as
    [ESCAPE_DCT], and every character from DEL (127) on is written
    ['\u{0:04x}'.format(n)]. *)
Definition escape_char_ascii (c : ascii) : list ascii :=
  let n := nat_of_ascii c in
  if Nat.ltb n 127 then escape_char c
  else ["\"; "u"; "0"; "0"; hex_digit (n / 16); hex_digit (n mod 16)]%char.

(** [py_encode_basestring_ascii(s)] *)
Definition encode_basestring_ascii (s : string) : JsonText :=
  Ch "034"%char :: map Ch (flat_map escape_char_ascii (list_ascii_of_string s)) ++ [Ch "034"%char].

(** [json.dumps(list_of_str)], with the default [ensure_ascii=True] *)
Fixpoint join_strs (l : list string) : JsonText :=
  match l with
  | [] => []
  | [s] => encode_basestring_ascii s
  | s :: rest => encode_basestring_ascii s ++ chars ", " ++ join_strs rest
  end.

Definition dumps_str_list (l : list string) : JsonText :=
  Ch "["%char :: join_strs l ++ [Ch "]"%char].

(** *** Decoder *)

Definition is_ws (c : ascii) : bool :=
  let n := nat_of_ascii c in
  Nat.eqb n 32 || Nat.eqb n 9 || Nat.eqb n 10 || Nat.eqb n 13.

(** [WHITESPACE.match(s, idx).end()] *)
Fixpoint skip_ws (t : JsonText) : JsonText :=
  match t with
  | Ch c :: r => if is_ws c then skip_ws r else t
  | _ => t
  end.

(** [s[idx:idx+len(lit)] == lit] *)
Fixpoint expect (lit : list ascii) (t : JsonText) : option JsonText :=
  match lit, t with
  | [], _ => Some t
  | c :: lit', Ch c' :: t' => if Ascii.eqb c c' then expect lit' t' else None
  | _, _ => None
  end.

Definition hex_value (c : ascii) : option nat :=
  let n := nat_of_ascii c in
  if (Nat.leb 48 n && Nat.leb n 57) then Some (n - 48)
  else if (Nat.leb 97 n && Nat.leb n 102) then Some (n - 87)
  else if (Nat.leb 65 n && Nat.leb n 70) then Some (n - 55)
  else None.

(** [_decode_uXXXX]: four hex digits; code points of 256 and above are
    not representable in this model and read as a decoding failure. *)
Definition decode_u (a b c d : ascii) : option ascii :=
  match hex_value a, hex_value b, hex_value c, hex_value d with
  | Some a, Some b, Some c, Some d =>
      let n := ((a * 16 + b) * 16 + c) * 16 + d in
      if Nat.ltb n 256 then Some (ascii_of_nat n) else None
  | _, _, _, _ => None
  end.

(** [BACKSLASH] of [json.decoder]. *)
Definition backslash (e : ascii) : option ascii :=
  let n := nat_of_ascii e in
  if Nat.eqb n 34 then Some "034"%char
  else if Nat.eqb n 92 then Some "\"%char
  else if Nat.eqb n 47 then Some "/"%char
  else if Nat.eqb n 98 then Some (ascii_of_nat 8)
  else if Nat.eqb n 102 then Some (ascii_of_nat 12)
  else if Nat.eqb n 110 then Some (ascii_of_nat 10)
  else if Nat.eqb n 114 then Some (ascii_of_nat 13)
  else if Nat.eqb n 116 then Some (ascii_of_nat 9)
  else None.

Definition cons_fst {A B} (c : A) (o : option (list A * B)) : option (list A * B) :=
  match o with Some (s, r) => Some (c :: s, r) | None => None end.

(** [scanstring(s, end, strict=True)]: the characters after the opening
    quote up to the closing one; control characters are rejected. *)
Fixpoint scanstring (t : JsonText) : option (list ascii * JsonText) :=
  match t with
  | Ch c :: r =>
      if Nat.eqb (nat_of_ascii c) 34 then Some ([], r)
      else if Nat.eqb (nat_of_ascii c) 92 then
        match r with
        | Ch "u"%char :: Ch a :: Ch b :: Ch c' :: Ch d :: r' =>
            match decode_u a b c' d with
            | Some x => cons_fst x (scanstring r')
            | None => None
            end
        | Ch e :: r' =>
            match backslash e with
            | Some x => cons_fst x (scanstring r')
            | None => None
            end
        | _ => None
        end
      else if Nat.ltb (nat_of_ascii c) 32 then None
      else cons_fst c (scanstring r)
  | _ => None
  end.

Definition digit_value (c : ascii) : option nat :=
  let n := nat_of_ascii c in
  if (Nat.leb 48 n && Nat.leb n 57) then Some (n - 48) else None.

Definition push_digit (d : nat) (u : Decimal.uint) : Decimal.uint :=
  match d with
  | 0 => Decimal.D0 u | 1 => Decimal.D1 u | 2 => Decimal.D2 u
  | 3 => Decimal.D3 u | 4 => Decimal.D4 u | 5 => Decimal.D5 u
  | 6 => Decimal.D6 u | 7 => Decimal.D7 u | 8 => Decimal.D8 u
  | _ => Decimal.D9 u
  end.

(** The longest run of decimal digits. *)
Fixpoint digit_run (t : JsonText) : Decimal.uint * JsonText :=
  match t with
  | Ch c :: r =>
      match digit_value c with
      | Some d => let (u, r') := digit_run r in (push_digit d u, r')
      | None => (Decimal.Nil, t)
      end
  | _ => (Decimal.Nil, t)
  end.

(** [match_number] for an integer literal: [-?\d+], read by [int()],
    which raises [ValueError] for more than [int_max_str_digits] digits. *)
Definition parse_int (t : JsonText) : option (Z * JsonText) :=
  let '(neg, t1) := match t with
                    | Ch "-"%char :: r => (true, r)
                    | _ => (false, t)
                    end in
  match digit_run t1 with
  | (Decimal.Nil, _) => None
  | (u, r) =>
      if Nat.ltb int_max_str_digits (length (uint_chars u)) then None
      else Some (Z.of_int (if neg then Decimal.Neg u else Decimal.Pos u), r)
  end.

(** [scan_once] for the scalar values a parameter dict holds. *)
Definition parse_value (t : JsonText) : option (pyval * JsonText) :=
  match t with
  | Ch "034"%char :: r =>
      match scanstring r with
      | Some (s, r') => Some (PStr (string_of_list_ascii s), r')
      | None => None
      end
  | FloatRepr f :: r => Some (PFloat f, r)
  | Ch "t"%char :: _ =>
      option_map (fun r => (PBool true, r)) (expect (list_ascii_of_string "true") t)
  | Ch "f"%char :: _ =>
      option_map (fun r => (PBool false, r)) (expect (list_ascii_of_string "false") t)
  | Ch "N"%char :: _ =>
      option_map (fun r => (PFloat S754_nan, r)) (expect (list_ascii_of_string "NaN") t)
  | Ch "I"%char :: _ =>
      option_map (fun r => (PFloat (S754_infinity false), r))
        (expect (list_ascii_of_string "Infinity") t)
  | _ =>
      match parse_int t with
      | Some (z, r) => Some (PInt z, r)
      | None =>
          option_map (fun r => (PFloat (S754_infinity true), r))
            (expect (list_ascii_of_string "-Infinity") t)
      end
  end.

(** [d[key] = value]: an existing key keeps its position. *)
Fixpoint dict_set (d : Params) (k : string) (v : pyval) : Params :=
  match d with
  | [] => [(k, v)]
  | (k', v') :: rest =>
      if String.eqb k k' then (k', v) :: rest else (k', v') :: dict_set rest k v
  end.

(** The member loop of [JSONObject], after the opening brace. *)
Fixpoint parse_members (fuel : nat) (acc : Params) (t : JsonText)
    : option (Params * JsonText) :=
  match fuel with
  | 0 => None
  | S fuel' =>
      match skip_ws t with
      | Ch c :: r =>
          if Nat.eqb (nat_of_ascii c) 34 then
            match scanstring r with
            | Some (k, r1) =>
                match skip_ws r1 with
                | Ch ":"%char :: r2 =>
                    match parse_value (skip_ws r2) with
                    | Some (v, r3) =>
                        let acc' := dict_set acc (string_of_list_ascii k) v in
                        match skip_ws r3 with
                        | Ch ","%char :: r4 => parse_members fuel' acc' r4
                        | Ch "}"%char :: r4 => Some (acc', r4)
                        | _ => None
                        end
                    | None => None
                    end
                | _ => None
                end
            | None => None
            end
          else None
      | _ => None
      end
  end.

(** [json.loads(s)] for a text whose top-level value is an object;
    [None] is a [JSONDecodeError], the [ValueError] of an int literal
    with too many digits, or a top-level value that is not a dict, which
    the [parameters] property never stores. *)
Definition loads (t : JsonText) : option Params :=
  match skip_ws t with
  | Ch "{"%char :: r =>
      let res := match skip_ws r with
                 | Ch "}"%char :: r' => Some ([], r')
                 | _ => parse_members (length r) [] r
                 end in
      match res with
      | Some (d, r') => match skip_ws r' with [] => Some d | _ => None end
      | None => None
      end
  | _ => None
  end.

(** *** Python equality of parameter values and dicts ([==]) *)

(** [int == float] compares exact values. *)
Definition float_eq_int (f : spec_float) (z : Z) : bool :=
  match f with
  | S754_zero _ => Z.eqb z 0
  | S754_finite s m e =>
      let v := if s then Z.neg m else Z.pos m in
      if Z.leb 0 e then Z.eqb z (v * 2 ^ e) else Z.eqb (z * 2 ^ (- e)) v
  | _ => false
  end.

(** The comparison [dict.__eq__] makes per value.  CPython first tests
    identity ([v is w]) and only then calls [==]; the two dicts compared
    here never share a float object, since [json.loads] builds fresh values
    and decodes [NaN] to the [json.decoder] constant, so only [==] is
    written out. *)
Definition py_eq (a b : pyval) : bool :=
  match a, b with
  | PInt x, PInt y => Z.eqb x y
  | PFloat x, PFloat y => SFeqb x y
  | PBool x, PBool y => Bool.eqb x y
  | PStr x, PStr y => String.eqb x y
  | PBool x, PInt y | PInt y, PBool x => Z.eqb (Z.b2z x) y
  | PFloat x, PInt y | PInt y, PFloat x => float_eq_int x y
  | PFloat x, PBool y | PBool y, PFloat x => float_eq_int x (Z.b2z y)
  | _, _ => false
  end.

Fixpoint dict_lookup (d : Params) (k : string) : option pyval :=
  match d with
  | [] => None
  | (k', v) :: rest => if String.eqb k k' then Some v else dict_lookup rest k
  end.

(** [dict.__eq__]: same size, and every key of [a] is in [b] with an equal
    value. *)
Definition dict_eq (a b : Params) : bool :=
  Nat.eqb (length a) (length b) &&
  forallb (fun kv => match dict_lookup b (fst kv) with
                     | Some v => py_eq (snd kv) v
                     | None => false
                     end) a.

End Json.

(* ================================================================== *)
(** ** models.py [Revision] and repositories.py [RevisionRepository]

    The [revisions] table is the list of its rows in [id] order; [id] is
    the autoincrement key handed out by [next_id].  [generated_at] is the
    ISO-8601 text written by [_utcnow_str()] when the row is flushed. *)

Module Store.

Record Revision := mkRevision {
  id : nat;
  design_id : nat;
  revision_code : string;
  parameters_json : Json.JsonText;
  description : option string;
  generated_at : string;
  generated_by : string;
  fcstd_path : option string;
  step_path : option string;
  dxf_path : option string;
  pdf_path : option string;
  bom_xlsx_path : option string;
  bom_pdf_path : option string;
  eco_number : option string;
  eco_reason : option string;
  eco_status : string;
  validation_passed : Z;
  validation_warnings_json : option Json.JsonText
}.

(** The [parameters] property: getter [json.loads(self.parameters_json)]. *)
Definition parameters (r : Revision) : option Params :=
  Json.loads (parameters_json r).

(** The [parameters] setter: [json.dumps(value, ensure_ascii=False)],
    which may raise before anything is assigned. *)
Definition set_parameters (r : Revision) (value : Params) : outcome Revision :=
  match Json.dumps_checked value with
  | Raise e => Raise e
  | Ok text =>
  Ok {| id := id r; design_id := design_id r; revision_code := revision_code r;
     parameters_json := text;
     description := description r; generated_at := generated_at r;
     generated_by := generated_by r;
     fcstd_path := fcstd_path r; step_path := step_path r;
     dxf_path := dxf_path r; pdf_path := pdf_path r;
     bom_xlsx_path := bom_xlsx_path r; bom_pdf_path := bom_pdf_path r;
     eco_number := eco_number r; eco_reason := eco_reason r;
     eco_status := eco_status r; validation_passed := validation_passed r;
     validation_warnings_json := validation_warnings_json r |}
  end.

Record Store := mkStore {
  rows : list Revision;
  next_id : nat
}.

(** [self._session.get(Revision, revision_id)] *)
Definition get_by_id (s : Store) (revision_id : nat) : option Revision :=
  find (fun r => Nat.eqb (id r) revision_id) (rows s).

(** The design's rows, in table ([id]) order. *)
Definition rows_of_design (s : Store) (d : nat) : list Revision :=
  filter (fun r => Nat.eqb (design_id r) d) (rows s).

Definition ts_le (a b : Revision) : Prop :=
  String.leb (generated_at a) (generated_at b) = true.

(** [get_by_design(design_id)]:
    [filter(Revision.design_id == design_id).order_by(Revision.generated_at.asc())].
    SQL fixes the result up to the order of rows with equal
    [generated_at]: any ordering of the design's rows that is sorted by
    [generated_at] (text comparison) is a possible result. *)
Definition get_by_design_result (s : Store) (d : nat) (result : list Revision) : Prop :=
  Permutation result (rows_of_design s d) /\ Sorted ts_le result.

(** One such result: a stable insertion sort on [generated_at]. *)
Fixpoint insert_by_ts (r : Revision) (l : list Revision) : list Revision :=
  match l with
  | [] => [r]
  | x :: l' =>
      if String.leb (generated_at r) (generated_at x) then r :: x :: l'
      else x :: insert_by_ts r l'
  end.

Definition get_by_design (s : Store) (d : nat) : list Revision :=
  fold_right insert_by_ts [] (rows_of_design s d).

(** The body of [get_next_revision_code] after the query:
    [if not revisions: return "A"];
    [return _increment_revision_code(revisions[-1].revision_code)]. *)
Definition next_code_of (revisions : list Revision) : string :=
  match revisions with
  | [] => "A"
  | r :: _ => RevisionCode._increment_revision_code (revision_code (last revisions r))
  end.

Definition get_next_revision_code (s : Store) (design_id : nat) : string :=
  next_code_of (get_by_design s design_id).

(** The flush of a new row: [uq_revisions_design_rev] rejects a second
    row with the same [(design_id, revision_code)]. *)
Definition flush_insert (s : Store) (r : Revision) : outcome Store :=
  if existsb (fun x => Nat.eqb (design_id x) (design_id r)
                       && String.eqb (revision_code x) (revision_code r)) (rows s)
  then Raise (IntegrityError "uq_revisions_design_rev")
  else Ok (mkStore (rows s ++ [r]) (S (next_id s))).

(** [RevisionRepository.create(design_id, parameters, description,
    generated_by)], flushed at time [now]; the new revision and store.
    [rev.parameters = parameters] raises before the flush when the
    setter's [json.dumps] does. *)
Definition create_with_code (revision_code : string) (s : Store) (now : string)
    (design_id : nat) (parameters : Params) (description : string)
    (generated_by : string) : outcome (Revision * Store) :=
  match Json.dumps_checked parameters with
  | Raise e => Raise e
  | Ok parameters_json =>
  let rev := {| id := next_id s; design_id := design_id;
                revision_code := revision_code;
                parameters_json := parameters_json;
                description := Some description; generated_at := now;
                generated_by := generated_by;
                fcstd_path := None; step_path := None; dxf_path := None;
                pdf_path := None; bom_xlsx_path := None; bom_pdf_path := None;
                eco_number := None; eco_reason := None; eco_status := "draft";
                validation_passed := 0%Z; validation_warnings_json := None |} in
  match flush_insert s rev with
  | Raise e => Raise e
  | Ok s' => Ok (rev, s')
  end
  end.

Definition create (s : Store) (now : string) (design_id : nat) (parameters : Params)
    (description : string) (generated_by : string) : outcome (Revision * Store) :=
  create_with_code (get_next_revision_code s design_id) s now design_id parameters
    description generated_by.

(** Apply [f] to the row with the given id (a mutation of a loaded ORM
    object, written back at commit). *)
Definition update_row (s : Store) (revision_id : nat) (f : Revision -> Revision) : Store :=
  mkStore (map (fun r => if Nat.eqb (id r) revision_id then f r else r) (rows s))
          (next_id s).

Definition set_eco (status : string) (eco_number_arg eco_reason_arg : option string)
    (r : Revision) : Revision :=
  {| id := id r; design_id := design_id r; revision_code := revision_code r;
     parameters_json := parameters_json r;
     description := description r; generated_at := generated_at r;
     generated_by := generated_by r;
     fcstd_path := fcstd_path r; step_path := step_path r;
     dxf_path := dxf_path r; pdf_path := pdf_path r;
     bom_xlsx_path := bom_xlsx_path r; bom_pdf_path := bom_pdf_path r;
     eco_number := match eco_number_arg with Some n => Some n | None => eco_number r end;
     eco_reason := match eco_reason_arg with Some n => Some n | None => eco_reason r end;
     eco_status := status; validation_passed := validation_passed r;
     validation_warnings_json := validation_warnings_json r |}.

(** [update_eco_status(revision_id, status, eco_number=None, eco_reason=None)] *)
Definition update_eco_status (s : Store) (revision_id : nat) (status : string)
    (eco_number eco_reason : option string) : outcome (option Revision * Store) :=
  if negb (existsb (String.eqb status) ["draft"; "issued"; "obsolete"])
  then Raise (ValueError status)
  else
    match get_by_id s revision_id with
    | Some _ =>
        let s' := update_row s revision_id (set_eco status eco_number eco_reason) in
        Ok (get_by_id s' revision_id, s')
    | None => Ok (None, s)
    end.

(** The argument [paths] of [update_output_paths]: a dict from the six
    keys to path strings; [paths.get(key)] is [paths key]. *)
Definition PathsDict := string -> option string.

Definition set_paths (paths : PathsDict) (r : Revision) : Revision :=
  {| id := id r; design_id := design_id r; revision_code := revision_code r;
     parameters_json := parameters_json r;
     description := description r; generated_at := generated_at r;
     generated_by := generated_by r;
     fcstd_path := paths "fcstd"; step_path := paths "step";
     dxf_path := paths "dxf"; pdf_path := paths "pdf";
     bom_xlsx_path := paths "bom_xlsx"; bom_pdf_path := paths "bom_pdf";
     eco_number := eco_number r; eco_reason := eco_reason r;
     eco_status := eco_status r; validation_passed := validation_passed r;
     validation_warnings_json := validation_warnings_json r |}.

(** [update_output_paths(revision_id, paths)] *)
Definition update_output_paths (s : Store) (revision_id : nat) (paths : PathsDict)
    : option Revision * Store :=
  match get_by_id s revision_id with
  | Some _ =>
      let s' := update_row s revision_id (set_paths paths) in
      (get_by_id s' revision_id, s')
  | None => (None, s)
  end.

End Store.

(* ================================================================== *)
(** ** piece_controller.py [PieceController.generate] *)

Module Controller.

Import Validation.

Record PieceType := mkPieceType { pt_id : nat; code : string }.
Record Design := mkDesign { d_id : nat; piece_type_id : nat; name : string }.

Record GenerationRequest := mkRequest {
  req_design_id : nat;
  req_parameters : Params;
  req_description : string
}.

(** [base_engine.GenerationResult] *)
Record GenerationResult := mkGenResult {
  success : bool;
  res_fcstd_path : option string;
  res_step_path : option string;
  error_message : option string;
  res_warnings : list string;
  elapsed_seconds : spec_float
}.

(** [GenerationResponse]; [output_dir] is a path given by its parts. *)
Record GenerationResponse := mkResponse {
  resp_success : bool;
  resp_revision_id : option nat;
  resp_revision_code : option string;
  resp_output_dir : option (list string);
  resp_errors : list string;
  resp_warnings : list string;
  resp_elapsed_seconds : spec_float
}.

Definition zero_seconds : spec_float := S754_zero false.

Definition failure (errors warnings : list string) : GenerationResponse :=
  mkResponse false None None None errors warnings zero_seconds.

(** One call of [self.engine.generate(piece_code, parameters, output_dir,
    revision_code)]. *)
Record EngineCall := mkEngineCall {
  call_piece_code : string;
  call_parameters : Params;
  call_output_dir : list string;
  call_revision_code : string
}.

(** The database tables [designs], [piece_types], [revisions], and the
    log of calls made to the CAD engine. *)
Record World := mkWorld {
  designs : list Design;
  piece_types : list PieceType;
  store : Store.Store;
  engine_calls : list EngineCall
}.

(** The code points below 256 that Python's [\w] matches in a [str]
    pattern: [_] and those for which [str.isalnum()] holds, that is ASCII
    letters and digits, the letters [ª µ º], the letters [À]..[ÿ] but
    for [×] and [÷], and the digits and numerals [² ³ ¹ ¼ ½ ¾]. *)
Definition is_word_char (c : ascii) : bool :=
  let n := nat_of_ascii c in
  (Nat.leb 48 n && Nat.leb n 57) || (Nat.leb 65 n && Nat.leb n 90)
  || (Nat.leb 97 n && Nat.leb n 122) || Nat.eqb n 95
  || Nat.eqb n 170 || Nat.eqb n 178 || Nat.eqb n 179 || Nat.eqb n 181
  || Nat.eqb n 185 || Nat.eqb n 186 || (Nat.leb 188 n && Nat.leb n 190)
  || (Nat.leb 192 n && Nat.leb n 214) || (Nat.leb 216 n && Nat.leb n 246)
  || (Nat.leb 248 n && Nat.leb n 255).

(** [re.sub(r"[^\w\-]", "_", design_name)], one character at a time. *)
Definition safe_char (c : ascii) : ascii :=
  if is_word_char c || Ascii.eqb c "-"%char then c else "_"%char.

Definition safe_name (design_name : string) : string :=
  string_of_list_ascii (map safe_char (list_ascii_of_string design_name)).

(** [json.dumps(warning_msgs) if warning_msgs else None] *)
Definition warnings_json (warning_msgs : list string) : option Json.JsonText :=
  match warning_msgs with [] => None | _ => Some (Json.dumps_str_list warning_msgs) end.

Definition mark_validated (warning_msgs : list string) (r : Store.Revision) : Store.Revision :=
  {| Store.id := Store.id r; Store.design_id := Store.design_id r;
     Store.revision_code := Store.revision_code r;
     Store.parameters_json := Store.parameters_json r;
     Store.description := Store.description r;
     Store.generated_at := Store.generated_at r;
     Store.generated_by := Store.generated_by r;
     Store.fcstd_path := Store.fcstd_path r; Store.step_path := Store.step_path r;
     Store.dxf_path := Store.dxf_path r; Store.pdf_path := Store.pdf_path r;
     Store.bom_xlsx_path := Store.bom_xlsx_path r;
     Store.bom_pdf_path := Store.bom_pdf_path r;
     Store.eco_number := Store.eco_number r; Store.eco_reason := Store.eco_reason r;
     Store.eco_status := Store.eco_status r;
     Store.validation_passed := 1%Z;
     Store.validation_warnings_json := warnings_json warning_msgs |}.

(** The dict passed to [update_output_paths] in step 5: only the keys
    ["fcstd"] and ["step"].  A [Path] is always truthy, so
    [str(p) if p else None] keeps [p]. *)
Definition result_paths (res : GenerationResult) : Store.PathsDict :=
  fun k => if String.eqb k "fcstd" then res_fcstd_path res
           else if String.eqb k "step" then res_step_path res
           else None.

(** [cad_result.error_message or "Error desconocido en el motor CAD."] *)
Definition engine_error (res : GenerationResult) : string :=
  match error_message res with
  | Some m => if String.eqb m "" then "Error desconocido en el motor CAD." else m
  | None => "Error desconocido en el motor CAD."
  end.

Section Generate.

Variable py_eval : string -> Params -> EvalResult.
(** [catalog.get_validation_rules(piece_code)] *)
Variable catalog_rules : string -> list Rule.
(** [FreeCADEngine.generate] *)
Variable engine : string -> Params -> list string -> string -> GenerationResult.
(** [settings.outputs_dir] *)
Variable outputs_dir : list string.

(** [PieceController.generate(request)]; [now] is the clock reading used
    for the new row's [generated_at].  The exceptions modelled (the
    [ValueError] of [validate] or of the [parameters] setter, the
    [IntegrityError] of the flush) are raised before the first commit,
    so a [Raise] leaves the world unchanged.  [output_dir.mkdir] and
    [self.engine.generate] are taken to return: an exception from either,
    raised after the revision is committed, is outside this model. *)
Definition generate (w : World) (now : string) (request : GenerationRequest)
    : outcome (GenerationResponse * World) :=
  (* Step 1 *)
  match find (fun d => Nat.eqb (d_id d) (req_design_id request)) (designs w) with
  | None => Ok (failure ["Diseño no encontrado."] [], w)
  | Some design =>
  match find (fun p => Nat.eqb (pt_id p) (piece_type_id design)) (piece_types w) with
  | None => Ok (failure ["Tipo de pieza no encontrado."] [], w)
  | Some piece_type =>
  let piece_code := code piece_type in
  let design_name := name design in
  (* Step 2 *)
  let rules := catalog_rules piece_code in
  match validate py_eval (req_parameters request) rules with
  | Raise e => Raise e
  | Ok validation =>
  if negb (is_valid validation) then
    Ok (failure (map message (errors validation)) (map message (warnings validation)), w)
  else
  let warning_msgs := map message (warnings validation) in
  (* Step 3 *)
  match Store.create (store w) now (req_design_id request) (req_parameters request)
          (req_description request) "Fede" with
  | Raise e => Raise e
  | Ok (rev, s1) =>
  let revision_id := Store.id rev in
  let revision_code := Store.revision_code rev in
  let s2 := Store.update_row s1 revision_id (mark_validated warning_msgs) in
  (* Step 4 *)
  let output_dir := outputs_dir ++ [piece_code; safe_name design_name; revision_code] in
  let cad_result := engine piece_code (req_parameters request) output_dir revision_code in
  let calls := engine_calls w ++
                 [mkEngineCall piece_code (req_parameters request) output_dir revision_code] in
  (* Step 5 *)
  let s3 := if success cad_result
            then snd (Store.update_output_paths s2 revision_id (result_paths cad_result))
            else s2 in
  let w' := mkWorld (designs w) (piece_types w) s3 calls in
  (* Step 6 *)
  let all_warnings := warning_msgs ++ res_warnings cad_result in
  if success cad_result then
    Ok (mkResponse true (Some revision_id) (Some revision_code) (Some output_dir)
          [] all_warnings (elapsed_seconds cad_result), w')
  else
    Ok (mkResponse false (Some revision_id) (Some revision_code) (Some output_dir)
          [engine_error cad_result] all_warnings (elapsed_seconds cad_result), w')
  end end end end.

End Generate.

End Controller.

(* ================================================================== *)
(** * Properties *)

(* ------------------------------------------------------------------ *)
(** ** Validation engine *)

Module ValidationFacts.

Import Validation.

Section Facts.

Variable py_eval : string -> Params -> EvalResult.

(** The messages one rule contributes, starting from no messages. *)
Definition rule_step (parameters : Params) (rule : Rule) : outcome (list ValidationMessage) :=
  validate_rule py_eval parameters [] rule.

Lemma validate_rule_app parameters acc rule :
  validate_rule py_eval parameters acc rule =
  match rule_step parameters rule with
  | Ok l => Ok (acc ++ l)
  | Raise e => Raise e
  end.
Proof.
  unfold rule_step, validate_rule.
  destruct (Severity_of_value _); [|reflexivity].
  destruct (py_eval _ _) as [[|]|]; simpl; rewrite ?app_nil_r; reflexivity.
Qed.

Lemma validate_loop_app parameters rules : forall acc,
  validate_loop py_eval parameters acc rules =
  match validate_loop py_eval parameters [] rules with
  | Ok l => Ok (acc ++ l)
  | Raise e => Raise e
  end.
Proof.
  induction rules as [|rule rest IH]; intros acc; simpl.
  - rewrite app_nil_r; reflexivity.
  - rewrite !validate_rule_app.
    destruct (rule_step parameters rule) as [l|e]; [|reflexivity].
    rewrite IH, (IH ([] ++ l)).
    destruct (validate_loop py_eval parameters [] rest); simpl;
      rewrite ?app_assoc; reflexivity.
Qed.

Lemma validate_loop_cons parameters rule rest :
  validate_loop py_eval parameters [] (rule :: rest) =
  match rule_step parameters rule with
  | Raise e => Raise e
  | Ok l =>
      match validate_loop py_eval parameters [] rest with
      | Ok m => Ok (l ++ m)
      | Raise e => Raise e
      end
  end.
Proof.
  simpl. rewrite validate_rule_app.
  destruct (rule_step parameters rule); [|reflexivity].
  apply validate_loop_app.
Qed.

Lemma rule_step_raises parameters rule :
  raised (rule_step parameters rule) = true <->
  exists s, r_severity rule = Some s /\ s <> "error" /\ s <> "warning".
Proof.
  unfold rule_step, validate_rule, Severity_of_value.
  destruct (r_severity rule) as [s|]; simpl.
  - destruct (String.eqb_spec s "error") as [->|Hne1];
      [|destruct (String.eqb_spec s "warning") as [->|Hne2]].
    + destruct (py_eval _ _) as [[|]|]; simpl; split;
        [discriminate | intros (x & Hx & H1 & _); inversion Hx; congruence
        |discriminate | intros (x & Hx & H1 & _); inversion Hx; congruence
        |discriminate | intros (x & Hx & H1 & _); inversion Hx; congruence].
    + destruct (py_eval _ _) as [[|]|]; simpl; split;
        [discriminate | intros (x & Hx & _ & H2); inversion Hx; congruence
        |discriminate | intros (x & Hx & _ & H2); inversion Hx; congruence
        |discriminate | intros (x & Hx & _ & H2); inversion Hx; congruence].
    + split; [intros _; eauto | reflexivity].
  - destruct (py_eval _ _) as [[|]|]; simpl; split;
      try discriminate; intros (x & Hx & _); discriminate.
Qed.

(** The severity a rule declares, read as the spec reads it. *)
Definition declared_severity (rule : Rule) : Severity :=
  if String.eqb (dict_get (r_severity rule) "error") "warning" then WARNING else ERROR.

(** What the spec says one rule records. *)
Definition spec_rule_messages (parameters : Params) (rule : Rule) : list ValidationMessage :=
  let rid := dict_get (r_rule_id rule) "UNKNOWN" in
  let msg := dict_get (r_message rule) "Validation failed." in
  match py_eval (dict_get (r_expression rule) "True") parameters with
  | EvalRaised exc => [mkMessage rid ERROR ("[Error evaluando regla: " ++ exc ++ "] " ++ msg)]
  | Evaluated false => [mkMessage rid (declared_severity rule) msg]
  | Evaluated true => []
  end.

Definition severity_in_enum (rule : Rule) : Prop :=
  dict_get (r_severity rule) "error" = "error" \/
  dict_get (r_severity rule) "error" = "warning".

Lemma rule_step_spec parameters rule :
  severity_in_enum rule ->
  rule_step parameters rule = Ok (spec_rule_messages parameters rule).
Proof.
  unfold rule_step, validate_rule, spec_rule_messages, declared_severity, severity_in_enum.
  intros [H|H]; rewrite H; simpl;
    destruct (py_eval _ _) as [[|]|]; reflexivity.
Qed.

Lemma existsb_filter_nil {A} (f : A -> bool) l :
  existsb f l = false <-> filter f l = [].
Proof.
  induction l as [|x l IH]; simpl; [tauto|].
  destruct (f x); simpl; [split; discriminate|].
  exact IH.
Qed.

End Facts.

(** C3: validity is exactly the absence of error messages, and an empty
    rule list gives a valid result with no messages. *)
Theorem validate_is_valid_iff_no_errors py_eval parameters rules res :
  validate py_eval parameters rules = Ok res ->
  (is_valid res = true <-> length (errors res) = 0) /\
  (length (errors res) = 0 -> is_valid res = true) /\
  validate py_eval parameters [] = Ok (mkResult true []).
Proof.
  unfold validate. intros H.
  destruct (validate_loop py_eval parameters [] rules) as [m|e] eqn:E; [|discriminate].
  inversion H; subst res; clear H. unfold errors; simpl.
  assert (Hiff : negb (existsb is_error m) = true <-> length (filter is_error m) = 0).
  { rewrite negb_true_iff, existsb_filter_nil.
    split; [intros ->; reflexivity | destruct (filter is_error m); [reflexivity|discriminate]]. }
  split; [exact Hiff|]. split; [apply Hiff|reflexivity].
Qed.

(** C4: for rules whose severities are in the enumeration, [validate]
    returns, and records in rule order: a forced-error composite message
    for a rule whose evaluation raised, the declared severity and message
    for a falsy rule, nothing for a truthy one. *)
Theorem validate_messages_per_rule py_eval parameters rules :
  Forall severity_in_enum rules ->
  exists res, validate py_eval parameters rules = Ok res /\
    messages res = flat_map (spec_rule_messages py_eval parameters) rules.
Proof.
  intros Hall. unfold validate.
  assert (HL : validate_loop py_eval parameters [] rules =
               Ok (flat_map (spec_rule_messages py_eval parameters) rules)).
  { induction Hall as [|rule rest Hr Hrest IH]; [reflexivity|].
    rewrite validate_loop_cons, rule_step_spec by exact Hr.
    rewrite IH. reflexivity. }
  rewrite HL. eexists; split; reflexivity.
Qed.

(** C10: [validate] raises exactly when some rule declares a severity
    string other than ["error"] and ["warning"]. *)
Theorem validate_raises_iff_bad_severity py_eval parameters rules :
  raised (validate py_eval parameters rules) = true <->
  exists rule, In rule rules /\
    exists s, r_severity rule = Some s /\ s <> "error" /\ s <> "warning".
Proof.
  unfold validate.
  assert (H : raised (validate_loop py_eval parameters [] rules) = true <->
              exists rule, In rule rules /\
                exists s, r_severity rule = Some s /\ s <> "error" /\ s <> "warning").
  { induction rules as [|rule rest IH].
    - simpl. split; [discriminate | intros (x & [] & _)].
    - rewrite validate_loop_cons.
      pose proof (rule_step_raises py_eval parameters rule) as Hs.
      destruct (rule_step py_eval parameters rule) as [l|e] eqn:Er; simpl in Hs |- *.
      + destruct (validate_loop py_eval parameters [] rest) as [m|e] eqn:Em;
          simpl in IH |- *.
        * split; [discriminate|].
          intros (x & [<-|Hin] & Hx).
          -- apply Hs in Hx. discriminate.
          -- assert (false = true) by (apply IH; eauto). discriminate.
        * split; [|reflexivity]. intros _.
          destruct (proj1 IH eq_refl) as (x & Hin & Hx). eauto.
      + split; [|reflexivity]. intros _.
        exists rule. split; [left; reflexivity | apply Hs; reflexivity]. }
  destruct (validate_loop py_eval parameters [] rules); exact H.
Qed.

End ValidationFacts.

(* ------------------------------------------------------------------ *)
(** ** Revision code allocator *)

Module RevisionCodeFacts.

Import RevisionCode.

Definition is_upper (c : ascii) : bool :=
  Nat.leb 65 (nat_of_ascii c) && Nat.leb (nat_of_ascii c) 90.
Definition is_letter (c : ascii) : bool :=
  is_upper c || (Nat.leb 97 (nat_of_ascii c) && Nat.leb (nat_of_ascii c) 122).

(** Case analysis over the 256 characters, each case decided by
    evaluation. *)
Ltac all_chars c :=
  destruct c as [[|] [|] [|] [|] [|] [|] [|] [|]]; vm_compute; reflexivity || discriminate.

Lemma upper_char_idem c : upper_char (upper_char c) = upper_char c.
Proof. all_chars c. Qed.

Lemma upper_char_letter c : is_letter c = true -> is_upper (upper_char c) = true.
Proof. intros H; revert H; all_chars c. Qed.

Lemma succ_char_upper c :
  is_upper c = true -> Ascii.eqb c "Z"%char = false -> is_upper (succ_char c) = true.
Proof. intros H1 H2; revert H1 H2; all_chars c. Qed.

Lemma set_nth_length {A} i (x : A) l : length (set_nth i x l) = length l.
Proof.
  revert i; induction l as [|h t IH]; intros [|i]; simpl; auto.
Qed.

Lemma set_nth_app_l {A} i (x : A) u v :
  i < length u -> set_nth i x (u ++ v) = set_nth i x u ++ v.
Proof.
  revert i; induction u as [|h t IH]; intros [|i] Hi; simpl in *; try lia.
  - reflexivity.
  - rewrite IH by lia. reflexivity.
Qed.

Lemma set_nth_last {A} (x y : A) u : set_nth (length u) x (u ++ [y]) = u ++ [x].
Proof. induction u as [|h t IH]; simpl; [reflexivity | rewrite IH; reflexivity]. Qed.

Lemma nth_last {A} (y d : A) u : nth (length u) (u ++ [y]) d = y.
Proof. induction u as [|h t IH]; simpl; auto. Qed.

(** Steps of the loop below position [k] do not look past it. *)
Lemma carry_loop_app k : forall u v,
  k <= length u ->
  carry_loop k (u ++ v) = (fst (carry_loop k u) ++ v, snd (carry_loop k u)).
Proof.
  induction k as [|k IH]; intros u v Hk; simpl; [reflexivity|].
  rewrite app_nth1 by lia.
  destruct (Ascii.eqb (nth k u "A"%char) "Z"%char).
  - rewrite set_nth_app_l by lia. apply IH. rewrite set_nth_length. lia.
  - rewrite set_nth_app_l by lia. reflexivity.
Qed.

(** The last character after case mapping is not [Z]: it is incremented
    and nothing else changes. *)
Lemma increment_chars_last_not_Z s c :
  Ascii.eqb (upper_char c) "Z"%char = false ->
  increment_chars (s ++ [c]) = map upper_char s ++ [succ_char (upper_char c)].
Proof.
  intros Hc. unfold increment_chars.
  rewrite map_app. simpl map.
  replace (length (map upper_char s ++ [upper_char c]))
    with (S (length (map upper_char s))) by (rewrite length_app; simpl; lia).
  simpl carry_loop. rewrite nth_last, Hc, set_nth_last. reflexivity.
Qed.

(** The last character is [Z] (or [z]): it wraps to [A] and the carry
    goes to the characters before it. *)
Lemma increment_chars_last_Z s c :
  Ascii.eqb (upper_char c) "Z"%char = true ->
  increment_chars (s ++ [c]) = increment_chars s ++ ["A"%char].
Proof.
  intros Hc. unfold increment_chars.
  rewrite map_app. simpl map.
  replace (length (map upper_char s ++ [upper_char c]))
    with (S (length (map upper_char s))) by (rewrite length_app; simpl; lia).
  simpl carry_loop. rewrite nth_last, Hc, set_nth_last.
  rewrite carry_loop_app by lia. rewrite length_map.
  destruct (carry_loop (length s) (map upper_char s)) as [r [|]]; reflexivity.
Qed.

Lemma forallb_set_nth {A} (f : A -> bool) i x l :
  forallb f l = true -> f x = true -> forallb f (set_nth i x l) = true.
Proof.
  revert i; induction l as [|h t IH]; intros [|i] Hl Hx; simpl in *; auto;
    apply andb_true_iff in Hl as [Hh Ht]; rewrite ?Hh, ?Hx; simpl; auto.
Qed.

Lemma forallb_nth {A} (f : A -> bool) i l d :
  forallb f l = true -> i < length l -> f (nth i l d) = true.
Proof.
  revert i; induction l as [|h t IH]; intros [|i] Hl Hi; simpl in *; try lia;
    apply andb_true_iff in Hl as [Hh Ht]; auto.
  apply IH; auto; lia.
Qed.

Lemma carry_loop_upper k : forall u,
  k <= length u -> forallb is_upper u = true ->
  forallb is_upper (fst (carry_loop k u)) = true.
Proof.
  induction k as [|k IH]; intros u Hk Hu; simpl; [exact Hu|].
  destruct (Ascii.eqb (nth k u "A"%char) "Z"%char) eqn:Ez.
  - apply IH; [rewrite set_nth_length; lia|].
    apply forallb_set_nth; [exact Hu | reflexivity].
  - simpl. apply forallb_set_nth; [exact Hu|].
    apply succ_char_upper; [apply forallb_nth; [exact Hu | lia] | exact Ez].
Qed.

Lemma increment_chars_upper s :
  forallb is_letter s = true -> forallb is_upper (increment_chars s) = true.
Proof.
  intros Hs. unfold increment_chars.
  assert (Hu : forallb is_upper (map upper_char s) = true).
  { induction s as [|c s IH]; simpl in *; [reflexivity|].
    apply andb_true_iff in Hs as [Hc Hs].
    rewrite upper_char_letter by exact Hc. simpl. auto. }
  pose proof (carry_loop_upper (length (map upper_char s)) (map upper_char s)
                (le_n _) Hu) as H.
  destruct (carry_loop _ _) as [r [|]]; simpl in *; auto.
Qed.

Lemma increment_chars_all_Z n :
  increment_chars (repeat "Z"%char n) = repeat "A"%char (S n).
Proof.
  induction n as [|n IH]; [reflexivity|].
  replace (repeat "Z"%char (S n)) with (repeat "Z"%char n ++ ["Z"%char])
    by (rewrite <- repeat_cons; reflexivity).
  rewrite increment_chars_last_Z by reflexivity. rewrite IH.
  change (repeat "A"%char (S n) ++ ["A"%char] = repeat "A"%char (S (S n))).
  rewrite <- repeat_cons. reflexivity.
Qed.

Lemma increment_chars_case_insensitive s :
  increment_chars (map upper_char s) = increment_chars s.
Proof.
  unfold increment_chars. rewrite map_map.
  rewrite (map_ext (fun x => upper_char (upper_char x)) upper_char upper_char_idem).
  reflexivity.
Qed.

End RevisionCodeFacts.

Module AllocatorFacts.

Import RevisionCode RevisionCodeFacts.

Lemma next_code_of_snoc revisions r :
  Store.next_code_of (revisions ++ [r]) =
  _increment_revision_code (Store.revision_code r).
Proof.
  unfold Store.next_code_of.
  destruct (revisions ++ [r]) as [|x l] eqn:E.
  - destruct revisions; discriminate.
  - rewrite <- E, last_last. reflexivity.
Qed.

(** C5: the allocator returns ["A"] for no revisions and otherwise the
    increment of the last revision's code; the increment bumps the last
    character, wraps [Z] to [A] with a carry to the characters before it,
    prepends an [A] when the carry passes the first character, ignores
    case, and returns upper-case letters. *)
Theorem next_revision_code_increment (s : list ascii) (c : ascii)
    (Hletters : forallb is_letter (s ++ [c]) = true) :
  Store.next_code_of [] = "A" /\
  (forall revisions r, Store.next_code_of (revisions ++ [r]) =
                       _increment_revision_code (Store.revision_code r)) /\
  increment_chars (s ++ [c]) =
    (if Ascii.eqb (upper_char c) "Z"%char
     then increment_chars s ++ ["A"%char]
     else map upper_char s ++ [succ_char (upper_char c)]) /\
  (forall n, increment_chars (repeat "Z"%char (S n)) = repeat "A"%char (S (S n))) /\
  increment_chars (s ++ [c]) = increment_chars (map upper_char (s ++ [c])) /\
  forallb is_upper (increment_chars (s ++ [c])) = true /\
  map _increment_revision_code ["A"; "Z"; "AA"; "AZ"; "ZZ"] = ["B"; "AA"; "AB"; "BA"; "AAA"].
Proof.
  split; [reflexivity|].
  split; [exact next_code_of_snoc|].
  split.
  { destruct (Ascii.eqb (upper_char c) "Z"%char) eqn:Ez.
    - apply increment_chars_last_Z; exact Ez.
    - apply increment_chars_last_not_Z; exact Ez. }
  split; [intros n; apply increment_chars_all_Z|].
  split; [symmetry; apply increment_chars_case_insensitive|].
  split; [apply increment_chars_upper; exact Hletters|].
  reflexivity.
Qed.

End AllocatorFacts.

(* ------------------------------------------------------------------ *)
(** ** Revision store updates *)

Module StoreFacts.

Import Store.

(** The fields [update_eco_status] must leave alone. *)
Definition non_eco_fields (r : Revision) :=
  (id r, design_id r, revision_code r, parameters_json r, description r,
   generated_at r, generated_by r,
   (fcstd_path r, step_path r, dxf_path r, pdf_path r, bom_xlsx_path r, bom_pdf_path r),
   validation_passed r, validation_warnings_json r).

(** The fields [update_output_paths] must leave alone. *)
Definition non_path_fields (r : Revision) :=
  (id r, design_id r, revision_code r, parameters_json r, description r,
   generated_at r, generated_by r, eco_number r, eco_reason r, eco_status r,
   validation_passed r, validation_warnings_json r).

Lemma update_row_absent s rid f :
  get_by_id s rid = None -> update_row s rid f = s.
Proof.
  unfold get_by_id, update_row. destruct s as [rs n]; simpl. intros H.
  f_equal. rewrite <- map_id. apply map_ext_in. intros r Hin.
  destruct (Nat.eqb (id r) rid) eqn:E; [|reflexivity].
  exfalso. pose proof (find_none _ _ H r Hin) as Hn. simpl in Hn. congruence.
Qed.

Lemma Forall2_map_self {A} (P : A -> A -> Prop) (f : A -> A) l :
  (forall x, In x l -> P x (f x)) -> Forall2 P l (map f l).
Proof.
  induction l as [|x l IH]; intros H; simpl; constructor; auto.
  apply H; left; reflexivity.
  apply IH; intros y Hy; apply H; right; exact Hy.
Qed.

(** C7: a status outside [draft], [issued], [obsolete] raises before any
    row is read; an allowed status sets [eco_status] (and [eco_number],
    [eco_reason] when given) on the row with that id, and no other field
    of any row changes. *)
Theorem update_eco_status_only_eco_fields s rid status eco_number_arg eco_reason_arg :
  (existsb (String.eqb status) ["draft"; "issued"; "obsolete"] = false ->
   update_eco_status s rid status eco_number_arg eco_reason_arg = Raise (ValueError status)) /\
  (existsb (String.eqb status) ["draft"; "issued"; "obsolete"] = true ->
   exists res s', update_eco_status s rid status eco_number_arg eco_reason_arg = Ok (res, s') /\
     next_id s' = next_id s /\
     Forall2 (fun r r' =>
                non_eco_fields r' = non_eco_fields r /\
                if Nat.eqb (id r) rid then
                  eco_status r' = status /\
                  eco_number r' = match eco_number_arg with
                                  | Some n => Some n | None => eco_number r end /\
                  eco_reason r' = match eco_reason_arg with
                                  | Some n => Some n | None => eco_reason r end
                else r' = r)
             (rows s) (rows s')).
Proof.
  unfold update_eco_status. split.
  - intros H. rewrite H. reflexivity.
  - intros H. rewrite H. simpl negb. cbv iota.
    set (f := set_eco status eco_number_arg eco_reason_arg).
    assert (Hs : exists res, (match get_by_id s rid with
                  | Some _ => Ok (get_by_id (update_row s rid f) rid, update_row s rid f)
                  | None => Ok (None, s) end) = Ok (res, update_row s rid f)).
    { destruct (get_by_id s rid) eqn:E; eexists; [reflexivity|].
      rewrite update_row_absent by exact E. reflexivity. }
    destruct Hs as [res Hs]. rewrite Hs.
    exists res, (update_row s rid f). split; [reflexivity|]. split; [reflexivity|].
    unfold update_row; simpl.
    apply Forall2_map_self. intros r _.
    destruct (Nat.eqb (id r) rid); [|split; reflexivity].
    split; [reflexivity|]. repeat split; reflexivity.
Qed.

(** C8: [update_output_paths] sets the six path fields of the row with
    that id to [paths.get(key)], so a key missing from [paths] clears its
    field; no other field of any row changes. *)
Theorem update_output_paths_overwrites s rid (paths : PathsDict) :
  let '(res, s') := update_output_paths s rid paths in
  next_id s' = next_id s /\
  Forall2 (fun r r' =>
             non_path_fields r' = non_path_fields r /\
             if Nat.eqb (id r) rid then
               fcstd_path r' = paths "fcstd" /\ step_path r' = paths "step" /\
               dxf_path r' = paths "dxf" /\ pdf_path r' = paths "pdf" /\
               bom_xlsx_path r' = paths "bom_xlsx" /\ bom_pdf_path r' = paths "bom_pdf"
             else r' = r)
          (rows s) (rows s').
Proof.
  unfold update_output_paths.
  assert (Hs : exists res, (match get_by_id s rid with
                | Some _ => (get_by_id (update_row s rid (set_paths paths)) rid,
                             update_row s rid (set_paths paths))
                | None => (None, s) end) = (res, update_row s rid (set_paths paths))).
  { destruct (get_by_id s rid) eqn:E; eexists; [reflexivity|].
    rewrite update_row_absent by exact E. reflexivity. }
  destruct Hs as [res Hs]. rewrite Hs.
  split; [reflexivity|].
  unfold update_row; simpl.
  apply Forall2_map_self. intros r _.
  destruct (Nat.eqb (id r) rid); [|split; reflexivity].
  split; [reflexivity|]. repeat split; reflexivity.
Qed.

End StoreFacts.

(* ------------------------------------------------------------------ *)
(** ** Generation pipeline *)

Module GenerateFacts.

Import Validation Controller.

Lemma validate_is_valid py_eval parameters rules res :
  validate py_eval parameters rules = Ok res ->
  is_valid res = negb (existsb is_error (messages res)).
Proof.
  unfold validate. destruct (validate_loop _ _ _ _); intros H; inversion H; reflexivity.
Qed.

Lemma errors_nonempty_invalid py_eval parameters rules res :
  validate py_eval parameters rules = Ok res -> errors res <> [] -> is_valid res = false.
Proof.
  intros Hv He. rewrite (validate_is_valid _ _ _ _ Hv).
  destruct (existsb is_error (messages res)) eqn:E; [reflexivity|].
  exfalso. apply He. unfold errors. apply ValidationFacts.existsb_filter_nil. exact E.
Qed.

(** C2: when the design and its piece type resolve and validation
    reports an error, [generate] returns the failure response with the
    error and warning messages and leaves the world as it was: no
    revision row, no engine call. *)
Theorem generate_aborts_on_invalid py_eval catalog_rules engine outputs_dir
    w now request design piece_type validation
    (Hdesign : find (fun d => Nat.eqb (d_id d) (req_design_id request)) (designs w) = Some design)
    (Hpiece : find (fun p => Nat.eqb (pt_id p) (piece_type_id design)) (piece_types w)
              = Some piece_type)
    (Hvalid : validate py_eval (req_parameters request) (catalog_rules (code piece_type))
              = Ok validation)
    (Herrors : errors validation <> []) :
  generate py_eval catalog_rules engine outputs_dir w now request =
  Ok (mkResponse false None None None
        (map message (errors validation)) (map message (warnings validation))
        zero_seconds, w).
Proof.
  unfold generate. rewrite Hdesign, Hpiece, Hvalid.
  rewrite (errors_nonempty_invalid _ _ _ _ Hvalid Herrors). reflexivity.
Qed.

Lemma map_update_snoc (rows : list Store.Revision) rid f r :
  Forall (fun x => Store.id x <> rid) rows -> Store.id r = rid ->
  map (fun x => if Nat.eqb (Store.id x) rid then f x else x) (rows ++ [r]) =
  rows ++ [f r].
Proof.
  intros Hall Hr. rewrite map_app. simpl. rewrite Hr, Nat.eqb_refl. f_equal.
  induction Hall as [|x l Hx Hl IH]; simpl; [reflexivity|].
  apply Nat.eqb_neq in Hx. rewrite Hx, IH. reflexivity.
Qed.

Definition fallback_error : string := "Error desconocido en el motor CAD.".

(** C6: in a run of [generate] that called the engine and got a failure
    back, the store holds exactly one new row, with no output paths and
    [validation_passed = 1]; the response is a failure carrying that
    row's id and code, the output directory, and the engine's message
    (the fallback message when the engine gave none or an empty one). *)
Theorem generate_engine_failure_keeps_revision py_eval catalog_rules engine outputs_dir
    w now request resp w' call
    (Hids : Forall (fun r => Store.id r < Store.next_id (store w)) (Store.rows (store w)))
    (Hrun : generate py_eval catalog_rules engine outputs_dir w now request = Ok (resp, w'))
    (Hcalled : engine_calls w' = engine_calls w ++ [call])
    (Hfailed : success (engine (call_piece_code call) (call_parameters call)
                          (call_output_dir call) (call_revision_code call)) = false) :
  exists rev,
    Store.rows (store w') = Store.rows (store w) ++ [rev] /\
    Store.design_id rev = req_design_id request /\
    Store.revision_code rev = call_revision_code call /\
    Store.fcstd_path rev = None /\ Store.step_path rev = None /\
    Store.dxf_path rev = None /\ Store.pdf_path rev = None /\
    Store.bom_xlsx_path rev = None /\ Store.bom_pdf_path rev = None /\
    Store.validation_passed rev = 1%Z /\
    resp_success resp = false /\
    resp_revision_id resp = Some (Store.id rev) /\
    resp_revision_code resp = Some (Store.revision_code rev) /\
    resp_output_dir resp = Some (call_output_dir call) /\
    resp_errors resp =
      [match error_message (engine (call_piece_code call) (call_parameters call)
                              (call_output_dir call) (call_revision_code call)) with
       | Some m => if String.eqb m "" then fallback_error else m
       | None => fallback_error
       end].
Proof.
  assert (Hno : forall A (l : list A) x, l <> l ++ [x]).
  { intros A l x H. apply (f_equal (@length A)) in H.
    rewrite length_app in H. simpl in H. lia. }
  unfold generate in Hrun.
  destruct (find _ (designs w)) as [design|]; [|inversion Hrun; subst; now apply Hno in Hcalled].
  destruct (find _ (piece_types w)) as [pt|]; [|inversion Hrun; subst; now apply Hno in Hcalled].
  destruct (validate _ _ _) as [validation|e]; [|discriminate].
  destruct (negb (is_valid validation)); [inversion Hrun; subst; now apply Hno in Hcalled|].
  unfold Store.create, Store.create_with_code, Store.flush_insert in Hrun.
  destruct (Json.dumps_checked _) as [pj|e]; [|discriminate].
  destruct (existsb _ (Store.rows (store w))); [discriminate|].
  simpl in Hrun.
  set (rev0 := {| Store.id := Store.next_id (store w) |}) in Hrun.
  set (od := outputs_dir ++ [code pt; safe_name (name design);
                             Store.get_next_revision_code (store w) (req_design_id request)]) in Hrun.
  set (cr := engine (code pt) (req_parameters request) od
               (Store.get_next_revision_code (store w) (req_design_id request))) in Hrun.
  assert (Hcall : call = mkEngineCall (code pt) (req_parameters request) od
                    (Store.get_next_revision_code (store w) (req_design_id request))).
  { destruct (success cr); inversion Hrun; subst w'; simpl in Hcalled;
      apply app_inv_head in Hcalled; congruence. }
  subst call. simpl in Hfailed. fold cr in Hfailed. rewrite Hfailed in Hrun.
  inversion Hrun; subst resp w'; clear Hrun Hcalled.
  exists (mark_validated (map message (warnings validation)) rev0).
  simpl.
  split.
  { apply map_update_snoc; [|reflexivity].
    eapply Forall_impl; [|exact Hids]. intros r Hr. cbv beta in *. lia. }
  repeat split; reflexivity.
Qed.

End GenerateFacts.

(* ------------------------------------------------------------------ *)
(** ** Code allocation reads revisions in [generated_at] order *)

Module AllocationOrder.

Import Store Controller.

Definition mk_row (rid : nat) (code : string) (at_ : string) : Revision :=
  {| id := rid; design_id := 1; revision_code := code;
     parameters_json := Json.dumps []; description := Some "";
     generated_at := at_; generated_by := "Fede";
     fcstd_path := None; step_path := None; dxf_path := None; pdf_path := None;
     bom_xlsx_path := None; bom_pdf_path := None;
     eco_number := None; eco_reason := None; eco_status := "draft";
     validation_passed := 1%Z; validation_warnings_json := None |}.

(** Design 1 after two generations, A then B, where the wall clock read
    for B is earlier than the one read for A (a clock step back between
    the two runs). *)
Definition rev_A := mk_row 1 "A" "2026-01-01T10:00:00.500000+00:00".
Definition rev_B := mk_row 2 "B" "2026-01-01T10:00:00.400000+00:00".
Definition store_AB : Store := mkStore [rev_A; rev_B] 3.

(** The same two generations within one clock tick. *)
Definition rev_B_same_tick := mk_row 2 "B" "2026-01-01T10:00:00.500000+00:00".
Definition store_AB_same_tick : Store := mkStore [rev_A; rev_B_same_tick] 3.

Definition plate : PieceType := mkPieceType 1 "base_plate".
Definition plate_design : Design := mkDesign 1 1 "Placa 1".
Definition world_AB : World := mkWorld [plate_design] [plate] store_AB [].
Definition third_request : GenerationRequest := mkRequest 1 [("espesor", PInt 10)] "".
Definition no_rules (_ : string) : list Validation.Rule := [].
Definition eval_true (_ : string) (_ : Params) : Validation.EvalResult :=
  Validation.Evaluated true.
Definition engine_ok (_ : string) (_ : Params) (_ : list string) (_ : string)
    : GenerationResult :=
  mkGenResult true None None None [] zero_seconds.

Lemma admissible_AB l : get_by_design_result store_AB 1 l -> l = [rev_B; rev_A].
Proof.
  intros [Hperm Hsorted].
  change (rows_of_design store_AB 1) with [rev_A; rev_B] in Hperm.
  apply Permutation_sym, Permutation_length_2_inv in Hperm as [->| ->]; [|reflexivity].
  inversion Hsorted as [|x l' Hs Hhd]; subst.
  inversion Hhd as [|y l'' Hle]; subst.
  vm_compute in Hle. discriminate.
Qed.

(** C1 (failing input): for [store_AB] every result the
    [ORDER BY generated_at] query may return lists B before A, so the
    allocator increments A and hands out B again; the insert violates
    [uq_revisions_design_rev] and the third [generate] raises instead of
    creating revision C.  With equal timestamps the order [B; A] is also
    an admissible query result and gives the same duplicate. *)
Theorem next_code_follows_generated_at_not_creation :
  (forall l, get_by_design_result store_AB 1 l -> next_code_of l = "B") /\
  get_next_revision_code store_AB 1 = "B" /\
  In rev_B (rows store_AB) /\ revision_code rev_B = "B" /\ id rev_A < id rev_B /\
  create store_AB "2026-01-01T10:00:01+00:00" 1 [("espesor", PInt 10)] "" "Fede" =
    Raise (IntegrityError "uq_revisions_design_rev") /\
  generate eval_true no_rules engine_ok ["outputs"] world_AB
    "2026-01-01T10:00:01+00:00" third_request =
    Raise (IntegrityError "uq_revisions_design_rev") /\
  (get_by_design_result store_AB_same_tick 1 [rev_B_same_tick; rev_A] /\
   next_code_of [rev_B_same_tick; rev_A] = "B").
Proof.
  split.
  { intros l Hl. apply admissible_AB in Hl. subst l. reflexivity. }
  split; [reflexivity|].
  split; [right; left; reflexivity|].
  split; [reflexivity|]. split; [unfold rev_A, rev_B; simpl; lia|].
  split; [reflexivity|]. split; [reflexivity|].
  split; [|reflexivity].
  split.
  - apply perm_swap.
  - repeat constructor.
Qed.

End AllocationOrder.

(* ------------------------------------------------------------------ *)
(** ** The [parameters] property: JSON round trip *)

From Stdlib Require DecimalZ DecimalPos.

Module JsonFacts.

Import Json.

(** One escaped character is read back by [scanstring]. *)
Lemma scanstring_escape_char c t :
  scanstring (map Ch (escape_char c) ++ t) = cons_fst c (scanstring t).
Proof.
  destruct c as [[|] [|] [|] [|] [|] [|] [|] [|]]; reflexivity.
Qed.

Lemma scanstring_escaped cs t :
  scanstring (map Ch (flat_map escape_char cs) ++ Ch "034"%char :: t) = Some (cs, t).
Proof.
  induction cs as [|c cs IH]; [reflexivity|].
  simpl flat_map. rewrite map_app, <- app_assoc, scanstring_escape_char, IH.
  reflexivity.
Qed.

Lemma scanstring_encoded s t :
  encode_basestring s ++ t = Ch "034"%char ::
    (map Ch (flat_map escape_char (list_ascii_of_string s)) ++ Ch "034"%char :: t).
Proof. unfold encode_basestring. simpl. rewrite <- app_assoc. reflexivity. Qed.

(** The text after a value: it does not continue a number. *)
Definition no_digit_next (t : JsonText) : bool :=
  match t with
  | Ch c :: _ => match digit_value c with Some _ => false | None => true end
  | _ => true
  end.

Lemma digit_run_uint u t :
  no_digit_next t = true -> digit_run (map Ch (uint_chars u) ++ t) = (u, t).
Proof.
  intros Ht. induction u; simpl; try (rewrite IHu; reflexivity).
  destruct t as [|[c|f] r]; simpl in *; [reflexivity| |reflexivity].
  destruct (digit_value c); [discriminate|reflexivity].
Qed.

Lemma to_int_nonnil z u :
  (Z.to_int z = Decimal.Pos u \/ Z.to_int z = Decimal.Neg u) -> u <> Decimal.Nil.
Proof.
  destruct z as [|p|p]; simpl; intros [H|H]; inversion H; subst; try discriminate;
    intros E; pose proof (DecimalPos.Unsigned.of_to p) as Hp; rewrite E in Hp;
    discriminate.
Qed.

Lemma parse_int_pos u t :
  u <> Decimal.Nil -> no_digit_next t = true ->
  Nat.leb (length (uint_chars u)) int_max_str_digits = true ->
  parse_int (map Ch (uint_chars u) ++ t) = Some (Z.of_int (Decimal.Pos u), t).
Proof.
  intros Hu Ht Hd. apply Nat.leb_le in Hd.
  destruct u; [contradiction| ..]; unfold parse_int; simpl;
    rewrite digit_run_uint by exact Ht;
    destruct (Nat.ltb _ _) eqn:X; try reflexivity;
    apply Nat.ltb_lt in X; unfold int_max_str_digits in *; simpl in *; lia.
Qed.

Lemma parse_int_neg u t :
  u <> Decimal.Nil -> no_digit_next t = true ->
  Nat.leb (length (uint_chars u)) int_max_str_digits = true ->
  parse_int (Ch "-"%char :: map Ch (uint_chars u) ++ t) = Some (Z.of_int (Decimal.Neg u), t).
Proof.
  intros Hu Ht Hd. apply Nat.leb_le in Hd.
  destruct u; [contradiction| ..]; unfold parse_int; simpl;
    rewrite digit_run_uint by exact Ht;
    destruct (Nat.ltb _ _) eqn:X; try reflexivity;
    apply Nat.ltb_lt in X; unfold int_max_str_digits in *; simpl in *; lia.
Qed.

Lemma parse_int_repr z t :
  int_repr_ok z = true -> no_digit_next t = true -> parse_int (int_repr z ++ t) = Some (z, t).
Proof.
  intros Hok Ht. pose proof (DecimalZ.of_to z) as Hz. unfold int_repr_ok, int_digits in Hok.
  unfold int_repr.
  destruct (Z.to_int z) as [u|u] eqn:E.
  - rewrite parse_int_pos by (auto; apply (to_int_nonnil z); auto).
    rewrite Hz; reflexivity.
  - simpl app. rewrite parse_int_neg by (auto; apply (to_int_nonnil z); auto).
    rewrite Hz; reflexivity.
Qed.

Definition num_start (c : ascii) : bool :=
  existsb (Ascii.eqb c) ["-"; "0"; "1"; "2"; "3"; "4"; "5"; "6"; "7"; "8"; "9"]%char.

Lemma parse_value_number c r :
  num_start c = true ->
  parse_value (Ch c :: r) =
    match parse_int (Ch c :: r) with
    | Some (z, r') => Some (PInt z, r')
    | None => option_map (fun r' => (PFloat (S754_infinity true), r'))
                (expect (list_ascii_of_string "-Infinity") (Ch c :: r))
    end.
Proof.
  intros H. unfold num_start in H. simpl in H.
  repeat (apply orb_true_iff in H; destruct H as [H|H];
          [apply Ascii.eqb_eq in H; subst c; reflexivity|]).
  discriminate.
Qed.

Lemma int_repr_head z t :
  exists c r, int_repr z ++ t = Ch c :: r /\ num_start c = true.
Proof.
  unfold int_repr. pose proof (to_int_nonnil z) as Hn.
  destruct (Z.to_int z) as [u|u].
  - destruct u; [exfalso; apply (Hn Decimal.Nil); auto| ..]; eexists _, _; split; reflexivity.
  - eexists _, _; split; reflexivity.
Qed.

Lemma parse_value_dumps v t :
  value_ok v = true -> no_digit_next t = true -> parse_value (dumps_value v ++ t) = Some (v, t).
Proof.
  intros Hok Ht. destruct v as [z|f|b|s].
  - simpl dumps_value. destruct (int_repr_head z t) as (c & r & E & Hc).
    rewrite E, parse_value_number by exact Hc. rewrite <- E, parse_int_repr by assumption.
    reflexivity.
  - destruct f as [[|]|[|]| |[|] m e]; reflexivity.
  - destruct b; reflexivity.
  - simpl dumps_value. rewrite scanstring_encoded. simpl parse_value.
    rewrite scanstring_escaped, string_of_list_ascii_of_string. reflexivity.
Qed.

Lemma skip_ws_dumps_value v t : skip_ws (dumps_value v ++ t) = dumps_value v ++ t.
Proof.
  destruct v as [z|f|b|s].
  - simpl dumps_value. destruct (int_repr_head z t) as (c & r & E & Hc). rewrite E.
    unfold num_start in Hc. simpl in Hc.
    repeat (apply orb_true_iff in Hc; destruct Hc as [Hc|Hc];
            [apply Ascii.eqb_eq in Hc; subst c; reflexivity|]).
    discriminate.
  - destruct f as [[|]|[|]| |[|] m e]; reflexivity.
  - destruct b; reflexivity.
  - reflexivity.
Qed.

Lemma parse_members_item f acc k v X :
  value_ok v = true -> no_digit_next X = true ->
  parse_members (S f) acc (dumps_item (k, v) ++ X) =
    match skip_ws X with
    | Ch ","%char :: r4 => parse_members f (dict_set acc k v) r4
    | Ch "}"%char :: r4 => Some (dict_set acc k v, r4)
    | _ => None
    end.
Proof.
  intros Hok HX. unfold dumps_item. simpl fst. simpl snd.
  rewrite <- !app_assoc, scanstring_encoded.
  cbn [parse_members skip_ws].
  change (is_ws "034"%char) with false. cbv iota.
  change ((nat_of_ascii "034"%char) =? 34)%nat with true. cbv iota.
  rewrite scanstring_escaped. cbn [chars list_ascii_of_string map app skip_ws].
  change (is_ws ":"%char) with false. change (is_ws " "%char) with true. cbv iota.
  cbn [skip_ws]. change (is_ws " "%char) with true. cbv iota.
  rewrite skip_ws_dumps_value, parse_value_dumps by assumption.
  rewrite string_of_list_ascii_of_string. reflexivity.
Qed.

Lemma dict_set_fresh acc k v :
  ~ In k (map fst acc) -> dict_set acc k v = acc ++ [(k, v)].
Proof.
  induction acc as [|[k' v'] acc IH]; intros Hk; [reflexivity|].
  simpl in *. destruct (String.eqb_spec k k') as [->|Hne]; [tauto|].
  rewrite IH by tauto. reflexivity.
Qed.

Lemma parse_members_space f acc t :
  parse_members (S f) acc (Ch " "%char :: t) = parse_members (S f) acc t.
Proof. reflexivity. Qed.

Lemma parse_members_join d :
  forall fuel acc rest, d <> [] -> NoDup (map fst (acc ++ d)) -> length d <= fuel ->
  forallb (fun kv => value_ok (snd kv)) d = true ->
  parse_members fuel acc (join_items d ++ Ch "}"%char :: rest) = Some (acc ++ d, rest).
Proof.
  induction d as [|[k v] d IH]; intros fuel acc rest Hne Hnd Hlen Hok; [contradiction|].
  simpl in Hok. apply andb_true_iff in Hok as [Hv Hok].
  destruct fuel as [|fuel]; [simpl in Hlen; lia|].
  rewrite map_app in Hnd. simpl map in Hnd.
  assert (Hk : ~ In k (map fst acc))
    by (intros Hin; apply (NoDup_remove_2 _ _ _ Hnd), in_or_app; auto).
  destruct d as [|kv2 d2].
  - change (join_items [(k, v)]) with (dumps_item (k, v)).
    rewrite parse_members_item by (first [exact Hv | reflexivity]).
    rewrite dict_set_fresh by exact Hk. reflexivity.
  - change (join_items ((k, v) :: kv2 :: d2))
      with (dumps_item (k, v) ++ chars ", " ++ join_items (kv2 :: d2)).
    rewrite <- !app_assoc, parse_members_item by (first [exact Hv | reflexivity]).
    cbn [chars list_ascii_of_string map app skip_ws].
    change (is_ws ","%char) with false. cbv iota.
    destruct fuel as [|fuel]; [simpl in Hlen; lia|].
    rewrite parse_members_space, dict_set_fresh by exact Hk.
    rewrite (IH (S fuel) (acc ++ [(k, v)]) rest) by
      (first [ discriminate
              | rewrite <- app_assoc, map_app; exact Hnd
              | exact Hok
              | simpl in *; lia ]).
    rewrite <- app_assoc. reflexivity.
Qed.

Lemma join_items_head kv d : exists Y, join_items (kv :: d) = Ch "034"%char :: Y.
Proof.
  destruct d; unfold join_items, dumps_item, encode_basestring; eexists; reflexivity.
Qed.

Lemma join_items_length d : length d <= length (join_items d).
Proof.
  induction d as [|kv d IH]; [simpl; lia|].
  destruct d as [|kv2 d2].
  - destruct (join_items_head kv []) as [Y E]. rewrite E. simpl. lia.
  - change (join_items (kv :: kv2 :: d2))
      with (dumps_item kv ++ chars ", " ++ join_items (kv2 :: d2)).
    rewrite !length_app. simpl length at 1. simpl in IH.
    unfold dumps_item, encode_basestring. simpl length. lia.
Qed.

Lemma loads_dumps d :
  NoDup (map fst d) -> forallb (fun kv => value_ok (snd kv)) d = true ->
  loads (dumps d) = Some d.
Proof.
  intros Hnd Hok. unfold loads, dumps. cbn [skip_ws].
  change (is_ws "{"%char) with false. cbv iota.
  destruct d as [|kv d']; [reflexivity|].
  destruct (join_items_head kv d') as [Y E].
  rewrite E. cbn [app skip_ws]. change (is_ws "034"%char) with false. cbv iota.
  replace (Ch "034"%char :: Y ++ [Ch "}"%char]) with (join_items (kv :: d') ++ [Ch "}"%char])
    by (rewrite E; reflexivity).
  rewrite parse_members_join; [reflexivity|discriminate|exact Hnd| |exact Hok].
  rewrite length_app. pose proof (join_items_length (kv :: d')). lia.
Qed.

(** A float other than [nan] is equal to itself. *)
Definition is_nan (v : pyval) : bool :=
  match v with PFloat S754_nan => true | _ => false end.

Lemma py_eq_refl v : is_nan v = false -> py_eq v v = true.
Proof.
  intros H. destruct v as [z|f|b|s]; simpl.
  - apply Z.eqb_refl.
  - destruct f as [[|]|[|]| |[|] m e]; try discriminate; unfold SFeqb, SFcompare;
      try reflexivity; rewrite Z.compare_refl, Pos.compare_cont_refl; reflexivity.
  - destruct b; reflexivity.
  - apply String.eqb_refl.
Qed.

Lemma dict_lookup_in d k v : NoDup (map fst d) -> In (k, v) d -> dict_lookup d k = Some v.
Proof.
  induction d as [|[k' v'] d IH]; intros Hnd Hin; [destruct Hin|].
  simpl in *. inversion Hnd as [|? ? Hk' Hnd']; subst.
  destruct Hin as [E|Hin].
  - inversion E; subst. rewrite String.eqb_refl. reflexivity.
  - destruct (String.eqb_spec k k') as [->|]; [|auto].
    exfalso. apply Hk'. apply (in_map fst _ _ Hin).
Qed.

Lemma dict_eq_refl d :
  NoDup (map fst d) -> forallb (fun kv => negb (is_nan (snd kv))) d = true -> dict_eq d d = true.
Proof.
  intros Hnd Hnan. unfold dict_eq. rewrite Nat.eqb_refl, andb_true_l.
  apply forallb_forall. intros [k v] Hin. cbn [fst snd].
  rewrite (dict_lookup_in d k v Hnd Hin). apply py_eq_refl.
  apply forallb_forall with (x := (k, v)) in Hnan; [|exact Hin].
  simpl in Hnan. destruct (is_nan v); [discriminate|reflexivity].
Qed.

(** Claim C9 (amended): storing a parameter dict whose keys are distinct,
    whose values contain no float [nan] and whose ints have at most
    [int_max_str_digits] digits through the [parameters] setter succeeds,
    and reading the property back gives the same dict, which compares
    equal to the original under Python's [==]. *)
Theorem parameters_roundtrip (r : Store.Revision) (d : Params)
    (Hkeys : NoDup (map fst d))
    (Hnan : forallb (fun kv => negb (is_nan (snd kv))) d = true)
    (Hdigits : forallb (fun kv => value_ok (snd kv)) d = true) :
  exists r', Store.set_parameters r d = Ok r' /\
    Store.parameters r' = Some d /\
    exists d', Store.parameters r' = Some d' /\ dict_eq d d' = true.
Proof.
  unfold Store.set_parameters, dumps_checked. rewrite Hdigits.
  eexists. split; [reflexivity|].
  assert (E : Store.parameters
                {| Store.id := Store.id r; Store.design_id := Store.design_id r;
                   Store.revision_code := Store.revision_code r;
                   Store.parameters_json := dumps d;
                   Store.description := Store.description r;
                   Store.generated_at := Store.generated_at r;
                   Store.generated_by := Store.generated_by r;
                   Store.fcstd_path := Store.fcstd_path r; Store.step_path := Store.step_path r;
                   Store.dxf_path := Store.dxf_path r; Store.pdf_path := Store.pdf_path r;
                   Store.bom_xlsx_path := Store.bom_xlsx_path r;
                   Store.bom_pdf_path := Store.bom_pdf_path r;
                   Store.eco_number := Store.eco_number r; Store.eco_reason := Store.eco_reason r;
                   Store.eco_status := Store.eco_status r;
                   Store.validation_passed := Store.validation_passed r;
                   Store.validation_warnings_json := Store.validation_warnings_json r |} = Some d)
    by (unfold Store.parameters; simpl; apply loads_dumps; assumption).
  split; [exact E|]. exists d. split; [exact E|]. apply dict_eq_refl; assumption.
Qed.

(** Claim C9 (counterexample): the dict [{"x": float('nan')}] is written
    as [{"x": NaN}] and read back as [{"x": NaN}], where the decoded value is
    the [NaN] constant of [json.decoder], a different object; [nan != nan],
    so the dict read back is not equal to the one stored.  The dict
    [{"x": 10**4300}] is not stored at all: [json.dumps] raises
    [ValueError], as [str(10**4300)] has 4301 digits. *)
Lemma parameters_roundtrip_fails :
  (exists r', Store.set_parameters AllocationOrder.rev_A [("x", PFloat S754_nan)] = Ok r' /\
              Store.parameters r' = Some [("x", PFloat S754_nan)]) /\
  dict_eq [("x", PFloat S754_nan)] [("x", PFloat S754_nan)] = false /\
  Store.set_parameters AllocationOrder.rev_A [("x", PInt (10 ^ 4300))]
    = Raise (ValueError int_limit_message).
Proof.
  split; [eexists; split; [reflexivity|vm_compute; reflexivity]|].
  split; vm_compute; reflexivity.
Qed.

(** A run of [parameters_roundtrip] on a dict with an int, a negative
    int, a float, a bool and a string holding a quote, a newline and an
    [ñ]. *)
Definition witness_params : Params :=
  [("espesor", PInt 10); ("offset", PInt (-3)); ("ancho", PFloat (S754_finite false 5 (-1)));
   ("pintado", PBool true);
   ("nota", PStr (String "034"%char (String "010"%char (String "241"%char "x"))))].

Lemma parameters_roundtrip_witness :
  exists r', Store.set_parameters AllocationOrder.rev_A witness_params = Ok r' /\
    Store.parameters r' = Some witness_params.
Proof.
  destruct (parameters_roundtrip AllocationOrder.rev_A witness_params)
    as (r' & E1 & E2 & _).
  - repeat constructor; simpl; intuition discriminate.
  - reflexivity.
  - reflexivity.
  - exists r'. split; assumption.
Defined.

End JsonFacts.

(* ------------------------------------------------------------------ *)
(** ** Concrete runs: the base plate of the catalog *)

Module Demo.

Import Validation Controller.

(** An evaluator for the three rule expressions used below: a parameter
    dict without [agujeros] makes [agujeros > 0] raise [NameError]. *)
Definition demo_eval (expression : string) (parameters : Params) : EvalResult :=
  match Json.dict_lookup parameters "espesor" with
  | Some (PInt z) =>
      if String.eqb expression "espesor >= 4.0" then Evaluated (Z.leb 4 z)
      else if String.eqb expression "espesor >= 3" then Evaluated (Z.leb 3 z)
      else if String.eqb expression "agujeros > 0" then
        match Json.dict_lookup parameters "agujeros" with
        | Some (PInt n) => Evaluated (Z.ltb 0 n)
        | _ => EvalRaised "name 'agujeros' is not defined"
        end
      else EvalRaised "invalid syntax"
  | _ => EvalRaised "name 'espesor' is not defined"
  end.

Definition rule_min_thickness : Rule :=
  mkRule (Some "VR-BP-01") (Some "espesor >= 4.0") (Some "error")
    (Some "El espesor debe ser de al menos 4 mm.").
Definition rule_holes : Rule :=
  mkRule (Some "VR-BP-02") (Some "agujeros > 0") (Some "warning")
    (Some "La placa deberia tener agujeros.").
Definition rule_thin : Rule :=
  mkRule (Some "VR-BP-03") (Some "espesor >= 3") (Some "warning")
    (Some "Espesor menor a 3 mm.").

Definition demo_rules : list Rule := [rule_min_thickness; rule_holes; rule_thin].
Definition thin_plate : Params := [("espesor", PInt 2)].

(** What [validate] reports for [thin_plate]: the failing error rule, the
    raising rule forced to [ERROR], and the failing warning rule. *)
Definition demo_res : ValidationResult :=
  mkResult false
    [mkMessage "VR-BP-01" ERROR "El espesor debe ser de al menos 4 mm.";
     mkMessage "VR-BP-02" ERROR
       "[Error evaluando regla: name 'agujeros' is not defined] La placa deberia tener agujeros.";
     mkMessage "VR-BP-03" WARNING "Espesor menor a 3 mm."].

Definition demo_catalog (_ : string) : list Rule := demo_rules.
Definition lenient_catalog (_ : string) : list Rule := [rule_min_thickness; rule_thin].
Definition demo_world : World :=
  mkWorld [AllocationOrder.plate_design] [AllocationOrder.plate] (Store.mkStore [] 1) [].
Definition demo_now : string := "2026-01-01T10:00:00+00:00".
Definition thin_request : GenerationRequest := mkRequest 1 thin_plate "".
Definition thick_request : GenerationRequest := mkRequest 1 [("espesor", PInt 10)] "".

(** An engine whose FreeCAD subprocess could not be started. *)
Definition engine_fail (_ : string) (_ : Params) (_ : list string) (_ : string)
    : GenerationResult :=
  mkGenResult false None None (Some "FreeCAD no disponible") [] zero_seconds.

(** [validate_is_valid_iff_no_errors] on [thin_plate]. *)
Lemma validate_is_valid_iff_no_errors_witness :
  validate demo_eval thin_plate demo_rules = Ok demo_res /\
  (is_valid demo_res = true <-> length (errors demo_res) = 0).
Proof.
  assert (H : validate demo_eval thin_plate demo_rules = Ok demo_res)
    by (vm_compute; reflexivity).
  split; [exact H|].
  exact (proj1 (ValidationFacts.validate_is_valid_iff_no_errors demo_eval thin_plate
                  demo_rules demo_res H)).
Defined.

(** [validate_messages_per_rule] on [thin_plate]. *)
Lemma validate_messages_per_rule_witness :
  Forall ValidationFacts.severity_in_enum demo_rules /\
  exists res, validate demo_eval thin_plate demo_rules = Ok res /\
    messages res = flat_map (ValidationFacts.spec_rule_messages demo_eval thin_plate) demo_rules.
Proof.
  assert (HF : Forall ValidationFacts.severity_in_enum demo_rules).
  { repeat apply Forall_cons; try apply Forall_nil;
      unfold ValidationFacts.severity_in_enum; simpl;
      first [left; reflexivity | right; reflexivity]. }
  split; [exact HF|].
  exact (ValidationFacts.validate_messages_per_rule demo_eval thin_plate demo_rules HF).
Defined.

(** [next_revision_code_increment] on the code ["AZ"]. *)
Lemma next_revision_code_increment_witness :
  forallb RevisionCodeFacts.is_letter (["A"%char] ++ ["Z"%char]) = true /\
  RevisionCode.increment_chars (["A"%char] ++ ["Z"%char]) = ["B"%char; "A"%char].
Proof.
  split; [reflexivity|].
  destruct (AllocatorFacts.next_revision_code_increment ["A"%char] "Z"%char eq_refl)
    as (_ & _ & H & _).
  rewrite H. reflexivity.
Defined.

(** [generate_aborts_on_invalid] on [thin_request]. *)
Lemma generate_aborts_on_invalid_witness :
  validate demo_eval thin_plate demo_rules = Ok demo_res /\
  generate demo_eval demo_catalog engine_fail ["outputs"] demo_world demo_now thin_request =
    Ok (mkResponse false None None None
          (map message (errors demo_res)) (map message (warnings demo_res))
          zero_seconds, demo_world) /\
  map message (errors demo_res) =
    ["El espesor debe ser de al menos 4 mm.";
     "[Error evaluando regla: name 'agujeros' is not defined] La placa deberia tener agujeros."].
Proof.
  assert (H : validate demo_eval thin_plate demo_rules = Ok demo_res)
    by (vm_compute; reflexivity).
  split; [exact H|]. split; [|reflexivity].
  apply (GenerateFacts.generate_aborts_on_invalid demo_eval demo_catalog engine_fail
           ["outputs"] demo_world demo_now thin_request
           AllocationOrder.plate_design AllocationOrder.plate demo_res).
  - reflexivity.
  - reflexivity.
  - exact H.
  - discriminate.
Defined.

(** [generate_engine_failure_keeps_revision] on [thick_request] with an
    engine that fails. *)
Lemma generate_engine_failure_keeps_revision_witness :
  exists resp w' call,
    generate demo_eval lenient_catalog engine_fail ["outputs"] demo_world demo_now
      thick_request = Ok (resp, w') /\
    engine_calls w' = engine_calls demo_world ++ [call] /\
    exists rev, Store.rows (store w') = [rev] /\ Store.fcstd_path rev = None /\
      Store.validation_passed rev = 1%Z /\ resp_success resp = false /\
      resp_errors resp = ["FreeCAD no disponible"].
Proof.
  do 3 eexists. split; [reflexivity|]. split; [reflexivity|].
  match goal with
  | |- exists rev, Store.rows (store ?w') = _ /\ _ /\ _ /\ resp_success ?resp = _ /\ _ =>
      destruct (GenerateFacts.generate_engine_failure_keeps_revision demo_eval lenient_catalog
                  engine_fail ["outputs"] demo_world demo_now thick_request resp w' _
                  (Forall_nil _) eq_refl eq_refl eq_refl)
        as (rev & Hrows & _ & _ & Hf & _ & _ & _ & _ & _ & Hv & Hs & _ & _ & _ & He)
  end.
  exists rev. rewrite Hrows. split; [reflexivity|].
  split; [exact Hf|]. split; [exact Hv|]. split; [exact Hs|].
  rewrite He. reflexivity.
Defined.

End Demo.

(* ================================================================== *)
(** * Further properties of the code *)

(* ------------------------------------------------------------------ *)
(** ** Revision codes are bijective base-26 numerals

    Reading [A] .. [Z] as the digits 1 .. 26, an upper-case code is the
    number [A] = 1, [Z] = 26, [AA] = 27, ...; [_increment_revision_code]
    adds one to it. *)

Module CodeNumbering.

Import RevisionCode RevisionCodeFacts.

Definition letter_value (c : ascii) : nat := nat_of_ascii c - 64.

Definition code_value (chars : list ascii) : nat :=
  fold_left (fun acc c => acc * 26 + letter_value c) chars 0.

Definition is_upper_code (code : string) : bool :=
  forallb is_upper (list_ascii_of_string code).

Lemma code_value_snoc s c : code_value (s ++ [c]) = code_value s * 26 + letter_value c.
Proof. unfold code_value. rewrite fold_left_app. reflexivity. Qed.

Lemma upper_char_upper c : is_upper c = true -> upper_char c = c.
Proof. intros H; revert H; all_chars c. Qed.

Lemma letter_value_range c : is_upper c = true -> 1 <= letter_value c <= 26.
Proof.
  intros H. unfold is_upper in H. apply andb_true_iff in H as [H1 H2].
  apply Nat.leb_le in H1, H2. unfold letter_value. lia.
Qed.

Lemma letter_value_succ c :
  is_upper c = true -> Ascii.eqb c "Z"%char = false ->
  letter_value (succ_char c) = S (letter_value c).
Proof. intros H1 H2; revert H1 H2; all_chars c. Qed.

Lemma letter_value_Z c : is_upper c = true -> Ascii.eqb c "Z"%char = true -> letter_value c = 26.
Proof. intros H1 H2; revert H1 H2; all_chars c. Qed.

Lemma letter_value_inj c d :
  is_upper c = true -> is_upper d = true -> letter_value c = letter_value d -> c = d.
Proof.
  intros Hc Hd E. unfold is_upper, letter_value in *.
  apply andb_true_iff in Hc as [Hc _], Hd as [Hd _]. apply Nat.leb_le in Hc, Hd.
  rewrite <- (ascii_nat_embedding c), <- (ascii_nat_embedding d). f_equal. lia.
Qed.

Lemma map_upper_char_upper s : forallb is_upper s = true -> map upper_char s = s.
Proof.
  induction s as [|c s IH]; intros H; [reflexivity|].
  simpl in H. apply andb_true_iff in H as [Hc Hs].
  simpl. rewrite upper_char_upper, IH by assumption. reflexivity.
Qed.

Lemma increment_chars_value s :
  forallb is_upper s = true -> code_value (increment_chars s) = S (code_value s).
Proof.
  induction s as [|c s IH] using rev_ind; intros H; [reflexivity|].
  rewrite forallb_app in H. apply andb_true_iff in H as [Hs Hc].
  simpl in Hc. rewrite andb_true_r in Hc.
  destruct (Ascii.eqb c "Z"%char) eqn:Ez.
  - rewrite increment_chars_last_Z by (rewrite upper_char_upper; assumption).
    rewrite !code_value_snoc, IH by exact Hs.
    rewrite (letter_value_Z c Hc Ez). change (letter_value "A"%char) with 1. lia.
  - rewrite increment_chars_last_not_Z by (rewrite upper_char_upper; assumption).
    rewrite (upper_char_upper c Hc), (map_upper_char_upper s Hs).
    rewrite !code_value_snoc, (letter_value_succ c Hc Ez). lia.
Qed.

Lemma code_value_pos s c :
  forallb is_upper (s ++ [c]) = true -> 1 <= code_value (s ++ [c]).
Proof.
  intros H. rewrite forallb_app in H. apply andb_true_iff in H as [_ Hc].
  simpl in Hc. rewrite andb_true_r in Hc.
  rewrite code_value_snoc. pose proof (letter_value_range c Hc). lia.
Qed.

Lemma code_value_inj a : forall b,
  forallb is_upper a = true -> forallb is_upper b = true ->
  code_value a = code_value b -> a = b.
Proof.
  induction a as [|c a IH] using rev_ind; intros b Ha Hb E.
  - destruct b as [|x b']; [reflexivity|].
    destruct (exists_last (l := x :: b') ltac:(discriminate)) as (t & d & Eb).
    rewrite Eb in Hb, E. pose proof (code_value_pos t d Hb). change (code_value []) with 0 in E. lia.
  - destruct b as [|x b'].
    { pose proof (code_value_pos a c Ha). change (code_value []) with 0 in E. lia. }
    destruct (exists_last (l := x :: b') ltac:(discriminate)) as (t & d & Eb).
    rewrite Eb in *. clear Eb x b'.
    rewrite forallb_app in Ha, Hb. apply andb_true_iff in Ha as [Ha Hc], Hb as [Ht Hd].
    simpl in Hc, Hd. rewrite andb_true_r in Hc, Hd.
    rewrite !code_value_snoc in E.
    pose proof (letter_value_range c Hc). pose proof (letter_value_range d Hd).
    assert (Ev : letter_value c = letter_value d) by lia.
    assert (Ec : code_value a = code_value t) by lia.
    rewrite (IH t Ha Ht Ec), (letter_value_inj c d Hc Hd Ev). reflexivity.
Qed.

Lemma increment_chars_is_upper s :
  forallb is_upper s = true -> forallb is_upper (increment_chars s) = true.
Proof.
  intros H. apply increment_chars_upper.
  induction s as [|c s IH]; [reflexivity|].
  simpl in *. apply andb_true_iff in H as [Hc Hs]. unfold is_letter. rewrite Hc. simpl. auto.
Qed.

(** X1: on an upper-case code, [_increment_revision_code] returns an
    upper-case code whose number is one more. *)
Theorem increment_revision_code_successor (code : string)
    (Hcode : is_upper_code code = true) :
  is_upper_code (_increment_revision_code code) = true /\
  code_value (list_ascii_of_string (_increment_revision_code code)) =
    S (code_value (list_ascii_of_string code)).
Proof.
  unfold is_upper_code, _increment_revision_code in *.
  rewrite list_ascii_of_string_of_list_ascii.
  split; [apply increment_chars_is_upper | apply increment_chars_value]; exact Hcode.
Qed.

Lemma chars_inj a b : list_ascii_of_string a = list_ascii_of_string b -> a = b.
Proof.
  intros E. rewrite <- (string_of_list_ascii_of_string a), E.
  apply string_of_list_ascii_of_string.
Qed.

Lemma iter_increment (n : nat) :
  is_upper_code (Nat.iter n _increment_revision_code "A") = true /\
  code_value (list_ascii_of_string (Nat.iter n _increment_revision_code "A")) = S n.
Proof.
  induction n as [|n [IHu IHv]]; [split; reflexivity|].
  simpl Nat.iter. destruct (increment_revision_code_successor _ IHu) as [Hu Hv].
  split; [exact Hu|]. rewrite Hv, IHv. reflexivity.
Qed.

(** X2: the codes [A], [increment(A)], [increment(increment(A))], ...
    are pairwise distinct and reach every non-empty upper-case code; and
    two distinct upper-case codes never increment to the same code. *)
Theorem revision_codes_enumerate :
  (forall m n, Nat.iter m _increment_revision_code "A" =
               Nat.iter n _increment_revision_code "A" -> m = n) /\
  (forall code, is_upper_code code = true -> code <> "" ->
     exists n, Nat.iter n _increment_revision_code "A" = code) /\
  (forall a b, is_upper_code a = true -> is_upper_code b = true ->
     _increment_revision_code a = _increment_revision_code b -> a = b).
Proof.
  split; [|split].
  - intros m n E. destruct (iter_increment m) as [_ Hm], (iter_increment n) as [_ Hn].
    rewrite E in Hm. lia.
  - intros code Hu Hne.
    assert (Hl : list_ascii_of_string code <> []) by (destruct code; [contradiction|discriminate]).
    destruct (exists_last Hl) as (s & c & Ec).
    pose proof (code_value_pos s c) as Hpos. unfold is_upper_code in Hu. rewrite Ec in Hu.
    specialize (Hpos Hu). rewrite <- Ec in Hpos, Hu.
    exists (pred (code_value (list_ascii_of_string code))).
    destruct (iter_increment (pred (code_value (list_ascii_of_string code)))) as [Hi Hv].
    apply chars_inj. apply code_value_inj; [exact Hi | exact Hu | lia].
  - intros a b Ha Hb E.
    destruct (increment_revision_code_successor a Ha) as [_ Hva],
             (increment_revision_code_successor b Hb) as [_ Hvb].
    rewrite E in Hva. rewrite Hva in Hvb. injection Hvb as Hv.
    apply chars_inj. apply code_value_inj; assumption.
Qed.

(** [increment_revision_code_successor] on the code [AZ]. *)
Lemma increment_revision_code_successor_witness :
  is_upper_code "AZ" = true /\ _increment_revision_code "AZ" = "BA" /\
  code_value (list_ascii_of_string (_increment_revision_code "AZ")) = 53.
Proof.
  split; [reflexivity|]. split; [reflexivity|].
  destruct (increment_revision_code_successor "AZ" eq_refl) as [_ H].
  rewrite H. reflexivity.
Defined.

End CodeNumbering.

(* ------------------------------------------------------------------ *)
(** ** Validation: validity rule by rule *)

Module ValidationMore.

Import Validation ValidationFacts.

(** Whether one rule leaves the result valid: it passes, or it fails and
    declares [warning]; a rule whose evaluation raises makes it invalid. *)
Definition rule_keeps_valid py_eval (parameters : Params) (rule : Rule) : bool :=
  match py_eval (dict_get (r_expression rule) "True") parameters with
  | Evaluated true => true
  | Evaluated false => String.eqb (dict_get (r_severity rule) "error") "warning"
  | EvalRaised _ => false
  end.

Lemma validate_loop_spec py_eval parameters rules :
  Forall severity_in_enum rules ->
  validate_loop py_eval parameters [] rules =
    Ok (flat_map (spec_rule_messages py_eval parameters) rules).
Proof.
  intros Hall. induction Hall as [|rule rest Hr Hrest IH]; [reflexivity|].
  rewrite validate_loop_cons, rule_step_spec by exact Hr.
  rewrite IH. reflexivity.
Qed.

Lemma spec_rule_messages_error py_eval parameters rule :
  existsb is_error (spec_rule_messages py_eval parameters rule) =
  negb (rule_keeps_valid py_eval parameters rule).
Proof.
  unfold spec_rule_messages, rule_keeps_valid, declared_severity.
  destruct (py_eval _ _) as [[|]|]; simpl; [reflexivity| |reflexivity].
  destruct (String.eqb _ "warning"); reflexivity.
Qed.

Lemma spec_rule_messages_length py_eval parameters rule :
  length (spec_rule_messages py_eval parameters rule) <= 1.
Proof. unfold spec_rule_messages. destruct (py_eval _ _) as [[|]|]; simpl; lia. Qed.

(** X4: when every rule declares [error] or [warning] (or nothing),
    [validate] returns a result that is valid exactly when every rule
    passes or is a failing [warning] rule, and it holds at most one
    message per rule. *)
Theorem validate_valid_iff_rules py_eval parameters rules
    (Henum : Forall severity_in_enum rules) :
  exists res, validate py_eval parameters rules = Ok res /\
    is_valid res = forallb (rule_keeps_valid py_eval parameters) rules /\
    length (messages res) <= length rules.
Proof.
  unfold validate. rewrite validate_loop_spec by exact Henum.
  eexists; split; [reflexivity|]. simpl. split.
  - clear Henum. induction rules as [|rule rest IH]; [reflexivity|].
    simpl. rewrite existsb_app, negb_orb, spec_rule_messages_error, negb_involutive, IH.
    reflexivity.
  - clear Henum. induction rules as [|rule rest IH]; [simpl; lia|].
    simpl. rewrite length_app. pose proof (spec_rule_messages_length py_eval parameters rule).
    lia.
Qed.

(** [validate_valid_iff_rules] on the plate of 2 mm: the first two rules
    break validity. *)
Lemma validate_valid_iff_rules_witness :
  Forall severity_in_enum Demo.demo_rules /\
  map (rule_keeps_valid Demo.demo_eval Demo.thin_plate) Demo.demo_rules = [false; false; true] /\
  exists res, validate Demo.demo_eval Demo.thin_plate Demo.demo_rules = Ok res /\
    is_valid res = forallb (rule_keeps_valid Demo.demo_eval Demo.thin_plate) Demo.demo_rules /\
    length (messages res) <= length Demo.demo_rules.
Proof.
  assert (HF : Forall severity_in_enum Demo.demo_rules).
  { repeat apply Forall_cons; try apply Forall_nil;
      unfold severity_in_enum; simpl;
      first [left; reflexivity | right; reflexivity]. }
  split; [exact HF|]. split; [reflexivity|].
  exact (validate_valid_iff_rules Demo.demo_eval Demo.thin_plate Demo.demo_rules HF).
Defined.

End ValidationMore.

(* ------------------------------------------------------------------ *)
(** ** Revision store: creation, lookup and the two updates *)

Module StoreMore.

Import Store.

(** [get_latest_for_design(design_id)]:
    [filter(Revision.design_id == design_id).order_by(Revision.id.desc()).first()],
    the design's row with the largest [id] ([id] is the primary key). *)
Definition get_latest_for_design (s : Store) (design_id : nat) : option Revision :=
  fold_left (fun best r =>
               match best with
               | Some b => if Nat.ltb (id b) (id r) then Some r else Some b
               | None => Some r
               end) (rows_of_design s design_id) None.

(** Every row's [id] is below the next autoincrement value. *)
Definition ids_below (s : Store) : Prop := Forall (fun r => id r < next_id s) (rows s).

Lemma create_inv s now d params description generated_by rev s' :
  create s now d params description generated_by = Ok (rev, s') ->
  rev = {| id := next_id s; design_id := d;
           revision_code := get_next_revision_code s d;
           parameters_json := Json.dumps params;
           description := Some description; generated_at := now;
           generated_by := generated_by;
           fcstd_path := None; step_path := None; dxf_path := None;
           pdf_path := None; bom_xlsx_path := None; bom_pdf_path := None;
           eco_number := None; eco_reason := None; eco_status := "draft";
           validation_passed := 0%Z; validation_warnings_json := None |} /\
  s' = mkStore (rows s ++ [rev]) (S (next_id s)).
Proof.
  unfold create, create_with_code, flush_insert, Json.dumps_checked.
  destruct (forallb _ params); [|discriminate].
  destruct (existsb _ (rows s)); [discriminate|].
  intros H. inversion H; subst. split; reflexivity.
Qed.

(** A successful [create] got past the [parameters] setter. *)
Lemma create_params_ok s now d params description generated_by rev s' :
  create s now d params description generated_by = Ok (rev, s') ->
  forallb (fun kv => Json.value_ok (snd kv)) params = true.
Proof.
  unfold create, create_with_code, Json.dumps_checked.
  destruct (forallb _ params); [reflexivity|discriminate].
Qed.

Lemma find_app_absent {A} (f : A -> bool) l x :
  find f l = None -> find f (l ++ [x]) = if f x then Some x else None.
Proof.
  induction l as [|y l IH]; simpl; [reflexivity|].
  destruct (f y); [discriminate|exact IH].
Qed.

Lemma find_none_ids s : ids_below s -> get_by_id s (next_id s) = None.
Proof.
  unfold ids_below, get_by_id. intros H.
  induction H as [|r l Hr Hl IH]; simpl; [reflexivity|].
  destruct (Nat.eqb_spec (id r) (next_id s)); [lia|exact IH].
Qed.

Lemma latest_step_bound (bound : nat) l : forall init,
  (forall b, init = Some b -> id b < bound) ->
  Forall (fun r => id r < bound) l ->
  forall b, fold_left (fun best r =>
               match best with
               | Some b => if Nat.ltb (id b) (id r) then Some r else Some b
               | None => Some r
               end) l init = Some b -> id b < bound.
Proof.
  induction l as [|r l IH]; intros init Hinit Hl b Hb; simpl in Hb; [exact (Hinit b Hb)|].
  inversion Hl as [|? ? Hr Hl']; subst.
  eapply IH; [|exact Hl'|exact Hb].
  intros b' Hb'. destruct init as [b0|]; simpl in Hb'.
  - destruct (Nat.ltb (id b0) (id r)); inversion Hb'; subst; [exact Hr | exact (Hinit b' eq_refl)].
  - inversion Hb'; subst. exact Hr.
Qed.

(** X5: a successful [create] appends exactly one row and changes no
    existing row; the row gets the next [id], the allocated code, the
    clock reading, status [draft], no output paths and
    [validation_passed = 0]; its [parameters] read back the dict given
    when the keys are distinct.  [get_by_id] on the new id and
    [get_latest_for_design] both return it, and the [id] invariant is
    kept. *)
Theorem create_appends_row s now d params description generated_by rev s'
    (Hids : ids_below s)
    (Hrun : create s now d params description generated_by = Ok (rev, s')) :
  rows s' = rows s ++ [rev] /\ next_id s' = S (next_id s) /\ ids_below s' /\
  id rev = next_id s /\ design_id rev = d /\
  revision_code rev = get_next_revision_code s d /\ generated_at rev = now /\
  eco_status rev = "draft" /\ validation_passed rev = 0%Z /\
  fcstd_path rev = None /\ step_path rev = None /\ dxf_path rev = None /\
  pdf_path rev = None /\ bom_xlsx_path rev = None /\ bom_pdf_path rev = None /\
  (NoDup (map fst params) -> parameters rev = Some params) /\
  get_by_id s' (id rev) = Some rev /\
  get_latest_for_design s' d = Some rev.
Proof.
  destruct (create_inv _ _ _ _ _ _ _ _ Hrun) as [Hrev Hs']. subst s'.
  assert (Hid : id rev = next_id s) by (rewrite Hrev; reflexivity).
  assert (Hd : design_id rev = d) by (rewrite Hrev; reflexivity).
  split; [reflexivity|]. split; [reflexivity|].
  split.
  { unfold ids_below in *. simpl. apply Forall_app. split.
    - eapply Forall_impl; [|exact Hids]. intros r Hr. cbv beta in *. lia.
    - constructor; [lia | constructor]. }
  split; [exact Hid|]. split; [exact Hd|].
  do 10 (split; [rewrite Hrev; reflexivity|]).
  split; [intros Hk; rewrite Hrev; unfold parameters; simpl;
          apply JsonFacts.loads_dumps; [exact Hk|exact (create_params_ok _ _ _ _ _ _ _ _ Hrun)]|].
  split.
  - unfold get_by_id. simpl. rewrite Hid, find_app_absent by exact (find_none_ids s Hids).
    simpl. rewrite Hid, Nat.eqb_refl. reflexivity.
  - unfold get_latest_for_design, rows_of_design. simpl.
    rewrite filter_app. simpl. rewrite Hd, Nat.eqb_refl, fold_left_app. simpl.
    destruct (fold_left _ (filter _ (rows s)) None) as [b|] eqn:Eb; [|reflexivity].
    assert (Hb : id b < next_id s).
    { refine (latest_step_bound (next_id s) (filter (fun r => Nat.eqb (design_id r) d) (rows s))
        None _ _ b Eb); [discriminate|].
      apply Forall_forall. intros r Hin. apply filter_In in Hin as [Hin _].
      exact (proj1 (Forall_forall _ _) Hids r Hin). }
    rewrite Hid. apply Nat.ltb_lt in Hb. rewrite Hb. reflexivity.
Qed.

Lemma create_appends_row_witness :
  exists rev s',
    ids_below (mkStore [AllocationOrder.rev_A] 2) /\
    create (mkStore [AllocationOrder.rev_A] 2) "2026-01-01T10:00:01+00:00" 1
      [("espesor", PInt 10)] "" "Fede" = Ok (rev, s') /\
    revision_code rev = "B" /\ id rev = 2 /\
    get_latest_for_design s' 1 = Some rev.
Proof.
  do 2 eexists.
  assert (Hids : ids_below (mkStore [AllocationOrder.rev_A] 2))
    by (repeat constructor).
  split; [exact Hids|]. split; [reflexivity|].
  match goal with
  | |- revision_code ?rev = _ /\ _ /\ get_latest_for_design ?s' _ = _ =>
      destruct (create_appends_row (mkStore [AllocationOrder.rev_A] 2)
                  "2026-01-01T10:00:01+00:00" 1 [("espesor", PInt 10)] "" "Fede"
                  rev s' Hids eq_refl)
        as (_ & _ & _ & Hid & _ & Hcode & _ & _ & _ & _ & _ & _ & _ & _ & _ & _ & _ & Hlatest)
  end.
  split; [rewrite Hcode; reflexivity|]. split; [exact Hid|]. exact Hlatest.
Defined.

Lemma get_by_id_update_row s rid f x :
  (forall r, id (f r) = id r) ->
  get_by_id (update_row s rid f) x =
    option_map (fun r => if Nat.eqb (id r) rid then f r else r) (get_by_id s x).
Proof.
  intros Hf. unfold get_by_id, update_row. destruct s as [rs n]; simpl.
  induction rs as [|r rs IH]; simpl; [reflexivity|].
  assert (Hr : id (if Nat.eqb (id r) rid then f r else r) = id r)
    by (destruct (Nat.eqb (id r) rid); [apply Hf|reflexivity]).
  rewrite Hr. destruct (Nat.eqb (id r) x); [reflexivity|exact IH].
Qed.

Lemma update_row_update_row s rid f g :
  (forall r, id (f r) = id r) ->
  update_row (update_row s rid f) rid g = update_row s rid (fun r => g (f r)).
Proof.
  intros Hf. unfold update_row; simpl. f_equal.
  rewrite map_map. apply map_ext. intros r.
  destruct (Nat.eqb (id r) rid) eqn:E; [rewrite Hf, E; reflexivity|rewrite E; reflexivity].
Qed.

Lemma update_row_ext s rid f g :
  (forall r, f r = g r) -> update_row s rid f = update_row s rid g.
Proof.
  intros H. unfold update_row. f_equal. apply map_ext. intros r.
  destruct (Nat.eqb (id r) rid); [apply H|reflexivity].
Qed.

(** X6: a second [update_output_paths] on the same revision replaces
    everything the first one wrote: the result and the store are those of
    the second call alone, so a key missing from the second dict clears
    the path the first call set. *)
Theorem update_output_paths_last_wins s rid (paths1 paths2 : PathsDict) :
  update_output_paths (snd (update_output_paths s rid paths1)) rid paths2 =
  update_output_paths s rid paths2.
Proof.
  unfold update_output_paths.
  destruct (get_by_id s rid) as [r|] eqn:E; simpl; [|rewrite ?E; reflexivity].
  rewrite get_by_id_update_row, E by reflexivity. simpl.
  rewrite update_row_update_row by reflexivity.
  rewrite (update_row_ext s rid (fun r => set_paths paths2 (set_paths paths1 r))
             (set_paths paths2)) by reflexivity.
  reflexivity.
Qed.

(** X7: [update_eco_status] and [update_output_paths] on the same
    revision commute: either order leaves the same store, and the status
    check raises the same error in both. *)
Theorem update_eco_status_paths_commute s rid status eco_number_arg eco_reason_arg
    (paths : PathsDict) :
  match update_eco_status (snd (update_output_paths s rid paths)) rid status
          eco_number_arg eco_reason_arg,
        update_eco_status s rid status eco_number_arg eco_reason_arg with
  | Ok (_, s2), Ok (_, s1) => s2 = snd (update_output_paths s1 rid paths)
  | Raise e2, Raise e1 => e2 = e1
  | _, _ => False
  end.
Proof.
  unfold update_eco_status.
  destruct (negb (existsb (String.eqb status) ["draft"; "issued"; "obsolete"]));
    [reflexivity|].
  unfold update_output_paths.
  destruct (get_by_id s rid) as [r|] eqn:E; simpl; [|rewrite ?E; reflexivity].
  rewrite get_by_id_update_row, E by reflexivity. simpl.
  rewrite get_by_id_update_row, E by reflexivity. simpl.
  rewrite !update_row_update_row by reflexivity.
  apply update_row_ext. reflexivity.
Qed.

Lemma ltb_not_leb a b : String.ltb a b = true -> String.leb b a = false.
Proof.
  unfold String.ltb, String.leb. rewrite (String.compare_antisym b a).
  destruct (String.compare a b); simpl; congruence.
Qed.

Lemma ts_le_flip a b : String.leb (generated_at a) (generated_at b) = false -> ts_le b a.
Proof.
  unfold ts_le. intros H.
  destruct (String.leb_total (generated_at a) (generated_at b)); congruence.
Qed.

Lemma insert_by_ts_perm r l : Permutation (insert_by_ts r l) (r :: l).
Proof.
  induction l as [|x l IH]; simpl; [reflexivity|].
  destruct (String.leb (generated_at r) (generated_at x)); [reflexivity|].
  eapply perm_trans; [apply perm_skip, IH|apply perm_swap].
Qed.

Lemma insert_by_ts_sorted r l : Sorted ts_le l -> Sorted ts_le (insert_by_ts r l).
Proof.
  induction l as [|x l IH]; simpl; intros H; [repeat constructor|].
  destruct (String.leb (generated_at r) (generated_at x)) eqn:E.
  - constructor; [exact H|constructor; exact E].
  - inversion H as [|? ? Hl Hhd]; subst. constructor; [apply IH, Hl|].
    destruct l as [|y l]; simpl; [constructor; apply ts_le_flip, E|].
    destruct (String.leb (generated_at r) (generated_at y)).
    + constructor. apply ts_le_flip, E.
    + inversion Hhd; subst. constructor. assumption.
Qed.

(** The stable insertion sort is one of the orders SQL may return. *)
Lemma get_by_design_is_result s d : get_by_design_result s d (get_by_design s d).
Proof.
  unfold get_by_design_result, get_by_design.
  induction (rows_of_design s d) as [|r l [IHp IHs]]; simpl; [split; constructor|].
  split.
  - eapply perm_trans; [apply insert_by_ts_perm|apply perm_skip, IHp].
  - apply insert_by_ts_sorted, IHs.
Qed.

Lemma sorted_snoc_inv {A} (R : A -> A -> Prop) l x : Sorted R (l ++ [x]) -> Sorted R l.
Proof.
  induction l as [|a l IH]; simpl; intros H; [constructor|].
  inversion H as [|? ? Hl Hhd]; subst. constructor; [apply IH, Hl|].
  destruct l as [|b l]; [constructor|]. inversion Hhd; subst. constructor. assumption.
Qed.

Lemma sorted_middle {A} (R : A -> A -> Prop) a x y b : Sorted R (a ++ x :: y :: b) -> R x y.
Proof.
  induction a as [|z a IH]; simpl; intros H.
  - inversion H as [|? ? _ Hhd]; subst. inversion Hhd; subst. assumption.
  - inversion H; subst. apply IH. assumption.
Qed.

Lemma rows_of_design_create s now d params description generated_by rev s' :
  create s now d params description generated_by = Ok (rev, s') ->
  rows_of_design s' d = rows_of_design s d ++ [rev].
Proof.
  intros Hrun. destruct (create_inv _ _ _ _ _ _ _ _ Hrun) as [Hrev Hs']. subst s'.
  unfold rows_of_design. simpl. rewrite filter_app. simpl.
  rewrite Hrev. simpl. rewrite Nat.eqb_refl. reflexivity.
Qed.

(** X8: when the clock reading of a [create] is later than the
    [generated_at] of every revision of the design, every order SQL may
    return from [get_by_design] afterwards is an order it could return
    before, followed by the new revision; so the next code allocated for
    the design is the increment of the one just used, whatever the order
    of equal timestamps. *)
Theorem create_monotonic_clock s now d params description generated_by rev s'
    (Hclock : Forall (fun r => String.ltb (generated_at r) now = true) (rows_of_design s d))
    (Hrun : create s now d params description generated_by = Ok (rev, s')) :
  rows_of_design s' d = rows_of_design s d ++ [rev] /\
  (forall res', get_by_design_result s' d res' ->
     exists res, get_by_design_result s d res /\ res' = res ++ [rev]) /\
  (forall res', get_by_design_result s' d res' ->
     next_code_of res' = RevisionCode._increment_revision_code (get_next_revision_code s d)) /\
  get_next_revision_code s' d =
    RevisionCode._increment_revision_code (get_next_revision_code s d).
Proof.
  pose proof (rows_of_design_create _ _ _ _ _ _ _ _ Hrun) as Hrows.
  destruct (create_inv _ _ _ _ _ _ _ _ Hrun) as [Hrev _].
  assert (Hsplit : forall res', get_by_design_result s' d res' ->
            exists res, get_by_design_result s d res /\ res' = res ++ [rev]).
  { intros res' [Hperm Hsorted]. rewrite Hrows in Hperm.
    assert (Hin : In rev res').
    { apply (Permutation_in _ (Permutation_sym Hperm)). apply in_or_app. right. left. reflexivity. }
    apply in_split in Hin as (a & b & ->).
    pose proof (Permutation_app_inv a b (rows_of_design s d) [] rev Hperm) as Hp.
    rewrite app_nil_r in Hp.
    destruct b as [|y b].
    - exists a. rewrite app_nil_r in Hp. split; [|reflexivity].
      split; [exact Hp|]. apply (sorted_snoc_inv _ a rev), Hsorted.
    - exfalso.
      assert (Hy : In y (rows_of_design s d))
        by (apply (Permutation_in _ Hp); apply in_or_app; right; left; reflexivity).
      pose proof (proj1 (Forall_forall _ _) Hclock y Hy) as Hlt. cbv beta in Hlt.
      pose proof (sorted_middle _ a rev y b Hsorted) as Hle. unfold ts_le in Hle.
      replace (generated_at rev) with now in Hle by (rewrite Hrev; reflexivity).
      rewrite (ltb_not_leb _ _ Hlt) in Hle. discriminate. }
  assert (Hcode : forall res', get_by_design_result s' d res' ->
            next_code_of res' = RevisionCode._increment_revision_code (get_next_revision_code s d)).
  { intros res' Hres. destruct (Hsplit res' Hres) as (res & _ & ->).
    rewrite AllocatorFacts.next_code_of_snoc. rewrite Hrev. reflexivity. }
  split; [exact Hrows|]. split; [exact Hsplit|]. split; [exact Hcode|].
  apply Hcode, get_by_design_is_result.
Qed.

Lemma create_monotonic_clock_witness :
  exists rev s',
    Forall (fun r => String.ltb (generated_at r) "2026-01-01T10:00:01+00:00" = true)
      (rows_of_design (mkStore [AllocationOrder.rev_A] 2) 1) /\
    create (mkStore [AllocationOrder.rev_A] 2) "2026-01-01T10:00:01+00:00" 1
      [("espesor", PInt 10)] "" "Fede" = Ok (rev, s') /\
    get_next_revision_code s' 1 = "C".
Proof.
  do 2 eexists.
  assert (Hclock : Forall (fun r => String.ltb (generated_at r) "2026-01-01T10:00:01+00:00" = true)
                     (rows_of_design (mkStore [AllocationOrder.rev_A] 2) 1))
    by (repeat constructor).
  split; [exact Hclock|]. split; [reflexivity|].
  match goal with
  | |- get_next_revision_code ?s' _ = _ =>
      destruct (create_monotonic_clock (mkStore [AllocationOrder.rev_A] 2)
                  "2026-01-01T10:00:01+00:00" 1 [("espesor", PInt 10)] "" "Fede"
                  _ s' Hclock eq_refl) as (_ & _ & _ & H)
  end.
  rewrite H. reflexivity.
Defined.

End StoreMore.

(* ------------------------------------------------------------------ *)
(** ** models.py [Revision.validation_warnings] *)

Module WarningsJson.

Import Json JsonFacts.

(** The element loop of [JSONArray], from the first value on: each value
    is read by [scan_once], then [,] (followed by optional whitespace)
    or [\]] must follow.  Values are read by [parse_value], so an array
    nested in the list reads as a decoding failure in this model. *)
Fixpoint parse_elements (fuel : nat) (acc : list pyval) (t : JsonText)
    : option (list pyval * JsonText) :=
  match fuel with
  | 0 => None
  | S fuel' =>
      match parse_value t with
      | Some (v, r) =>
          match skip_ws r with
          | Ch ","%char :: r' => parse_elements fuel' (acc ++ [v]) (skip_ws r')
          | Ch "]"%char :: r' => Some (acc ++ [v], r')
          | _ => None
          end
      | None => None
      end
  end.

(** [json.loads(s)] for a text whose top-level value is an array. *)
Definition loads_list (t : JsonText) : option (list pyval) :=
  match skip_ws t with
  | Ch "["%char :: r =>
      let res := match skip_ws r with
                 | Ch "]"%char :: r' => Some ([], r')
                 | r1 => parse_elements (length r) [] r1
                 end in
      match res with
      | Some (l, r') => match skip_ws r' with [] => Some l | _ => None end
      | None => None
      end
  | _ => None
  end.

(** The [validation_warnings] property:
    [if not self.validation_warnings_json: return []];
    [return json.loads(self.validation_warnings_json)]. *)
Definition validation_warnings (r : Store.Revision) : option (list pyval) :=
  match Store.validation_warnings_json r with
  | None => Some []
  | Some [] => Some []
  | Some t => loads_list t
  end.

(** [scanstring] reads back each character escaped by [ESCAPE_ASCII]. *)
Lemma scanstring_escape_char_ascii c t :
  scanstring (map Ch (escape_char_ascii c) ++ t) = cons_fst c (scanstring t).
Proof.
  destruct c as [[|] [|] [|] [|] [|] [|] [|] [|]]; reflexivity.
Qed.

Lemma scanstring_escaped_ascii cs t :
  scanstring (map Ch (flat_map escape_char_ascii cs) ++ Ch "034"%char :: t) = Some (cs, t).
Proof.
  induction cs as [|c cs IH]; [reflexivity|].
  simpl flat_map. rewrite map_app, <- app_assoc, scanstring_escape_char_ascii, IH.
  reflexivity.
Qed.

Lemma parse_value_str_ascii s t :
  parse_value (encode_basestring_ascii s ++ t) = Some (PStr s, t).
Proof.
  unfold encode_basestring_ascii. simpl. rewrite <- app_assoc. simpl.
  rewrite scanstring_escaped_ascii, string_of_list_ascii_of_string. reflexivity.
Qed.

(** Every character [ESCAPE_ASCII] writes is ASCII. *)
Lemma escape_char_ascii_ascii c :
  Forall (fun x => nat_of_ascii x < 128) (escape_char_ascii c).
Proof.
  destruct c as [[|] [|] [|] [|] [|] [|] [|] [|]]; vm_compute;
    repeat constructor; lia.
Qed.

(** A text made of ASCII characters only. *)
Definition ascii_text (t : JsonText) : Prop :=
  Forall (fun x => match x with Ch c => nat_of_ascii c < 128 | FloatRepr _ => False end) t.

Lemma ascii_text_app t1 t2 : ascii_text t1 -> ascii_text t2 -> ascii_text (t1 ++ t2).
Proof. intros H1 H2. apply Forall_app. split; assumption. Qed.

Lemma ascii_text_chars cs : Forall (fun x => nat_of_ascii x < 128) cs -> ascii_text (map Ch cs).
Proof. intros H. induction H; constructor; assumption. Qed.

Lemma ascii_text_encode s : ascii_text (encode_basestring_ascii s).
Proof.
  unfold encode_basestring_ascii. constructor; [vm_compute; lia|].
  apply ascii_text_app; [|constructor; [vm_compute; lia|constructor]].
  apply ascii_text_chars. induction (list_ascii_of_string s) as [|c cs IH]; [constructor|].
  simpl. apply Forall_app. split; [apply escape_char_ascii_ascii|exact IH].
Qed.

Lemma ascii_text_join_strs l : ascii_text (join_strs l).
Proof.
  induction l as [|s l IH]; [constructor|].
  destruct l as [|s2 l2]; [apply ascii_text_encode|].
  change (join_strs (s :: s2 :: l2))
    with (encode_basestring_ascii s ++ chars ", " ++ join_strs (s2 :: l2)).
  apply ascii_text_app; [apply ascii_text_encode|].
  apply ascii_text_app; [|exact IH].
  repeat constructor; vm_compute; lia.
Qed.

Lemma join_strs_head s l : exists Y, join_strs (s :: l) = Ch "034"%char :: Y.
Proof. destruct l; unfold join_strs, encode_basestring_ascii; eexists; reflexivity. Qed.

Lemma skip_ws_join_strs s l t : skip_ws (join_strs (s :: l) ++ t) = join_strs (s :: l) ++ t.
Proof. destruct (join_strs_head s l) as [Y E]. rewrite E. reflexivity. Qed.

Lemma join_strs_length l : length l <= length (join_strs l).
Proof.
  induction l as [|s l IH]; [simpl; lia|].
  destruct l as [|s2 l2].
  - destruct (join_strs_head s []) as [Y E]. rewrite E. simpl. lia.
  - change (join_strs (s :: s2 :: l2))
      with (encode_basestring_ascii s ++ chars ", " ++ join_strs (s2 :: l2)).
    rewrite !length_app. simpl in IH. unfold encode_basestring_ascii. simpl length. lia.
Qed.

Lemma parse_elements_join msgs :
  forall fuel acc rest, msgs <> [] -> length msgs <= fuel ->
  parse_elements fuel acc (join_strs msgs ++ Ch "]"%char :: rest) =
    Some (acc ++ map PStr msgs, rest).
Proof.
  induction msgs as [|s msgs IH]; intros fuel acc rest Hne Hlen; [contradiction|].
  destruct fuel as [|fuel]; [simpl in Hlen; lia|].
  destruct msgs as [|s2 msgs2].
  - change (join_strs [s]) with (encode_basestring_ascii s).
    cbn [parse_elements]. rewrite parse_value_str_ascii.
    cbn [skip_ws]. change (is_ws "]"%char) with false. cbv iota. reflexivity.
  - change (join_strs (s :: s2 :: msgs2))
      with (encode_basestring_ascii s ++ chars ", " ++ join_strs (s2 :: msgs2)).
    rewrite <- !app_assoc. cbn [parse_elements].
    rewrite parse_value_str_ascii.
    cbn [chars list_ascii_of_string map app skip_ws].
    change (is_ws ","%char) with false. cbv iota.
    cbn [skip_ws]. change (is_ws " "%char) with true. cbv iota.
    rewrite skip_ws_join_strs, IH by (first [discriminate | simpl in *; lia]).
    rewrite <- app_assoc. reflexivity.
Qed.

(** X9: the warnings [generate] stores on a revision ([json.dumps] of
    the message list with its default [ensure_ascii=True], or [None] for
    no messages) are pure ASCII text, whatever characters the messages
    hold, and are read back by the [validation_warnings] property as the
    same list of strings. *)
Theorem validation_warnings_mark_validated (msgs : list string) (r : Store.Revision) :
  (forall t, Store.validation_warnings_json (Controller.mark_validated msgs r) = Some t ->
             ascii_text t) /\
  validation_warnings (Controller.mark_validated msgs r) = Some (map PStr msgs).
Proof.
  split.
  { cbn [Controller.mark_validated Store.validation_warnings_json].
    unfold Controller.warnings_json. destruct msgs as [|m ms]; [discriminate|].
    intros t E. injection E as <-. unfold dumps_str_list.
    constructor; [vm_compute; lia|].
    apply ascii_text_app; [apply ascii_text_join_strs|].
    constructor; [vm_compute; lia|constructor]. }
  unfold validation_warnings, Controller.mark_validated. cbn [Store.validation_warnings_json].
  destruct msgs as [|m ms]; [reflexivity|].
  unfold Controller.warnings_json, dumps_str_list. cbv iota.
  unfold loads_list. cbn [skip_ws]. change (is_ws "["%char) with false. cbv iota.
  rewrite skip_ws_join_strs.
  destruct (join_strs_head m ms) as [Y E].
  rewrite E. cbn [app]. cbv iota.
  replace (Ch "034"%char :: Y ++ [Ch "]"%char]) with (join_strs (m :: ms) ++ [Ch "]"%char])
    by (rewrite E; reflexivity).
  rewrite parse_elements_join; [reflexivity|discriminate|].
  rewrite length_app. pose proof (join_strs_length (m :: ms)). lia.
Qed.

End WarningsJson.

(* ------------------------------------------------------------------ *)
(** ** [PieceController.generate]: the successful run *)

Module GenerateMore.

Import Validation Controller.

Lemma success_store (s : Store.Store) (rev : Store.Revision) f paths :
  Forall (fun x => Store.id x < Store.next_id s) (Store.rows s) ->
  Store.id rev = Store.next_id s ->
  (forall r, Store.id (f r) = Store.id r) ->
  snd (Store.update_output_paths
         (Store.update_row (Store.mkStore (Store.rows s ++ [rev]) (S (Store.next_id s)))
            (Store.id rev) f) (Store.id rev) paths) =
  Store.mkStore (Store.rows s ++ [Store.set_paths paths (f rev)]) (S (Store.next_id s)).
Proof.
  intros Hids Hid Hf.
  assert (Hlt : Forall (fun x => Store.id x <> Store.id rev) (Store.rows s)).
  { eapply Forall_impl; [|exact Hids]. intros x Hx. cbv beta in *. lia. }
  unfold Store.update_row. cbn [Store.rows Store.next_id].
  rewrite (GenerateFacts.map_update_snoc _ _ f rev Hlt eq_refl).
  unfold Store.update_output_paths, Store.get_by_id. cbn [Store.rows].
  rewrite StoreMore.find_app_absent.
  - rewrite Hf, Nat.eqb_refl. cbn [snd]. unfold Store.update_row. cbn [Store.rows Store.next_id].
    f_equal. apply GenerateFacts.map_update_snoc; [exact Hlt|].
    unfold Store.set_paths. cbn [Store.id]. apply Hf.
  - clear Hids. induction Hlt as [|x l Hx Hl IH]; simpl; [reflexivity|].
    apply Nat.eqb_neq in Hx. rewrite Hx. exact IH.
Qed.

(** X10: in a run of [generate] that called the engine and got a success
    back, validation passed, the store holds exactly one new row (the
    next id, the request's design, the engine call's revision code, the
    engine's [.FCStd] and [.step] paths, no other output path,
    [validation_passed = 1] and the warning messages as JSON), the
    designs and piece types are untouched, and the response is a success
    with that row's id and code, no error, the validation warnings
    followed by the engine's warnings and the engine's elapsed time. *)
Theorem generate_engine_success_records_paths py_eval catalog_rules engine outputs_dir
    w now request resp w' call
    (Hids : Forall (fun r => Store.id r < Store.next_id (store w)) (Store.rows (store w)))
    (Hrun : generate py_eval catalog_rules engine outputs_dir w now request = Ok (resp, w'))
    (Hcalled : engine_calls w' = engine_calls w ++ [call])
    (Hsucceeded : success (engine (call_piece_code call) (call_parameters call)
                             (call_output_dir call) (call_revision_code call)) = true) :
  let cr := engine (call_piece_code call) (call_parameters call)
              (call_output_dir call) (call_revision_code call) in
  exists rev validation,
    validate py_eval (req_parameters request) (catalog_rules (call_piece_code call))
      = Ok validation /\
    is_valid validation = true /\
    Store.rows (store w') = Store.rows (store w) ++ [rev] /\
    Store.next_id (store w') = S (Store.next_id (store w)) /\
    designs w' = designs w /\ piece_types w' = piece_types w /\
    Store.id rev = Store.next_id (store w) /\
    Store.design_id rev = req_design_id request /\
    Store.revision_code rev = call_revision_code call /\
    Store.fcstd_path rev = res_fcstd_path cr /\ Store.step_path rev = res_step_path cr /\
    Store.dxf_path rev = None /\ Store.pdf_path rev = None /\
    Store.bom_xlsx_path rev = None /\ Store.bom_pdf_path rev = None /\
    Store.validation_passed rev = 1%Z /\
    Store.validation_warnings_json rev = warnings_json (map message (warnings validation)) /\
    resp = mkResponse true (Some (Store.id rev)) (Some (Store.revision_code rev))
             (Some (call_output_dir call)) []
             (map message (warnings validation) ++ res_warnings cr) (elapsed_seconds cr).
Proof.
  assert (Hno : forall A (l : list A) x, l <> l ++ [x]).
  { intros A l x H. apply (f_equal (@length A)) in H.
    rewrite length_app in H. simpl in H. lia. }
  intros cr. unfold generate in Hrun.
  destruct (find _ (designs w)) as [design|]; [|inversion Hrun; subst; now apply Hno in Hcalled].
  destruct (find _ (piece_types w)) as [pt|]; [|inversion Hrun; subst; now apply Hno in Hcalled].
  destruct (validate _ _ _) as [validation|e] eqn:Hval; [|discriminate].
  destruct (negb (is_valid validation)) eqn:Hv;
    [inversion Hrun; subst; now apply Hno in Hcalled|].
  destruct (Store.create _ _ _ _ _ _) as [[rev s1]|e] eqn:Hc; [|discriminate].
  destruct (StoreMore.create_inv _ _ _ _ _ _ _ _ Hc) as [Hrev Hs1].
  assert (Hid : Store.id rev = Store.next_id (store w)) by (rewrite Hrev; reflexivity).
  set (od := outputs_dir ++ [code pt; safe_name (name design); Store.revision_code rev]) in Hrun.
  set (cr0 := engine (code pt) (req_parameters request) od (Store.revision_code rev)) in Hrun.
  assert (Hcall : call = mkEngineCall (code pt) (req_parameters request) od
                    (Store.revision_code rev)).
  { destruct (success cr0); inversion Hrun; subst w'; simpl in Hcalled;
      apply app_inv_head in Hcalled; congruence. }
  subst call. unfold cr in *. cbn [call_piece_code call_parameters call_output_dir
    call_revision_code] in *. fold cr0 in Hsucceeded. fold cr0.
  rewrite Hsucceeded in Hrun. inversion Hrun; subst resp w'; clear Hrun Hcalled.
  subst s1.
  rewrite success_store by (first [exact Hids | exact Hid | intros; reflexivity]).
  exists (Store.set_paths (result_paths cr0) (mark_validated (map message (warnings validation)) rev)),
    validation.
  split; [exact Hval|]. split; [destruct (is_valid validation); [reflexivity|discriminate]|].
  cbn [store Store.rows Store.next_id designs piece_types].
  split; [reflexivity|]. split; [reflexivity|]. split; [reflexivity|]. split; [reflexivity|].
  split; [exact Hid|].
  split; [rewrite Hrev; reflexivity|]. split; [reflexivity|].
  split; [reflexivity|]. split; [reflexivity|].
  repeat split; reflexivity.
Qed.

(** The engine of a successful run: both files written, one warning. *)
Definition engine_paths (_ : string) (_ : Params) (_ : list string) (_ : string)
    : GenerationResult :=
  mkGenResult true (Some "outputs/base_plate/Placa_1/A/model.FCStd")
    (Some "outputs/base_plate/Placa_1/A/model.step") None ["Sin cotas"] zero_seconds.

Lemma generate_engine_success_records_paths_witness :
  exists resp w' call,
    generate Demo.demo_eval Demo.lenient_catalog engine_paths ["outputs"] Demo.demo_world
      Demo.demo_now Demo.thick_request = Ok (resp, w') /\
    engine_calls w' = engine_calls Demo.demo_world ++ [call] /\
    exists rev, Store.rows (store w') = [rev] /\
      Store.fcstd_path rev = Some "outputs/base_plate/Placa_1/A/model.FCStd" /\
      Store.dxf_path rev = None /\ resp_success resp = true /\
      resp_warnings resp = ["Sin cotas"].
Proof.
  do 3 eexists. split; [reflexivity|]. split; [reflexivity|].
  match goal with
  | |- exists rev, Store.rows (store ?w') = _ /\ _ /\ _ /\ resp_success ?resp = _ /\ _ =>
      destruct (generate_engine_success_records_paths Demo.demo_eval Demo.lenient_catalog
                  engine_paths ["outputs"] Demo.demo_world Demo.demo_now Demo.thick_request
                  resp w' _ (Forall_nil _) eq_refl eq_refl eq_refl)
        as (rev & validation & Hval & _ & Hrows & _ & _ & _ & _ & _ & _ & Hf & _ & Hdxf
            & _ & _ & _ & _ & _ & Hresp)
  end.
  exists rev. rewrite Hrows. split; [reflexivity|].
  split; [exact Hf|]. split; [exact Hdxf|].
  rewrite Hresp. split; [reflexivity|]. cbn [resp_warnings].
  vm_compute in Hval. inversion Hval; subst validation. reflexivity.
Defined.

End GenerateMore.

(* ------------------------------------------------------------------ *)
(** ** [PieceController.generate], step 4: the directory name *)

Module SafeName.

Import Controller RevisionCodeFacts.

(** The characters [[\w\-]] matches. *)
Definition word_char (c : ascii) : bool := is_word_char c || Ascii.eqb c "-"%char.

Lemma safe_name_cons c s : safe_name (String c s) = String (safe_char c) (safe_name s).
Proof. reflexivity. Qed.

Lemma safe_char_idem c : safe_char (safe_char c) = safe_char c.
Proof. all_chars c. Qed.

Lemma safe_char_not_slash c : safe_char c <> "/"%char.
Proof. all_chars c. Qed.

Lemma safe_char_not_dot c : safe_char c <> "."%char.
Proof. all_chars c. Qed.

Lemma safe_char_fixed c : safe_char c = c <-> word_char c = true.
Proof.
  destruct c as [[|] [|] [|] [|] [|] [|] [|] [|]]; vm_compute;
    split; intros H; first [reflexivity | discriminate H].
Qed.

(** X11: [safe_name] keeps the length of the name, applying it twice
    changes nothing more, and its result holds neither [/] nor [.], so it
    is never [.] or [..] and names exactly one directory level under the
    piece code.  A name comes back unchanged exactly when all its
    characters are word characters or [-]. *)
Theorem safe_name_props (design_name : string) :
  String.length (safe_name design_name) = String.length design_name /\
  safe_name (safe_name design_name) = safe_name design_name /\
  (forall c, In c (list_ascii_of_string (safe_name design_name)) ->
     c <> "/"%char /\ c <> "."%char) /\
  safe_name design_name <> "." /\ safe_name design_name <> ".." /\
  (safe_name design_name = design_name <->
   forallb word_char (list_ascii_of_string design_name) = true).
Proof.
  assert (Hin : forall c, In c (list_ascii_of_string (safe_name design_name)) ->
                  c <> "/"%char /\ c <> "."%char).
  { induction design_name as [|c0 s IH]; simpl; [tauto|].
    intros c [<-|H]; [split; [apply safe_char_not_slash|apply safe_char_not_dot]|].
    apply IH, H. }
  split.
  { induction design_name as [|c s IH]; [reflexivity|].
    rewrite safe_name_cons. simpl. f_equal. apply IH.
    intros c' H. apply Hin. simpl. right. exact H. }
  split.
  { clear Hin. induction design_name as [|c s IH]; [reflexivity|].
    rewrite !safe_name_cons, safe_char_idem, IH. reflexivity. }
  split; [exact Hin|].
  split.
  { intros E. destruct (Hin "."%char) as [_ H]; [rewrite E; left; reflexivity|].
    apply H. reflexivity. }
  split.
  { intros E. destruct (Hin "."%char) as [_ H]; [rewrite E; left; reflexivity|].
    apply H. reflexivity. }
  clear Hin. induction design_name as [|c s IH]; [split; reflexivity|].
  rewrite safe_name_cons. simpl. rewrite andb_true_iff, <- safe_char_fixed, <- IH.
  split.
  - intros H. injection H as H1 H2. split; [exact H1|exact H2].
  - intros [H1 H2]. rewrite H1, H2. reflexivity.
Qed.

(** ['Diseño 1'] becomes ['Diseño_1']: [ñ] (241) is a word character. *)
Example safe_name_non_ascii :
  safe_name (String "D" (String "i" (String "s" (String "e" (String "241"%char "o 1")))))
  = String "D" (String "i" (String "s" (String "e" (String "241"%char "o_1")))).
Proof. reflexivity. Qed.

End SafeName.

(* ------------------------------------------------------------------ *)
(** ** repositories.py [DesignRepository], piece_controller.py
    [PieceController.create_design] *)

Module DesignRepo.

Import Controller.

(** A row of the [designs] table. *)
Record DesignRow := mkDesignRow {
  id : nat;
  piece_type_id : nat;
  name : string;
  description : option string;
  drawing_number : option string;
  created_at : string;
  updated_at : string
}.

(** The [piece_types] and [designs] tables; [next_id] is the next
    autoincrement value of [designs.id]. *)
Record DB := mkDB {
  piece_types : list PieceType;
  designs : list DesignRow;
  next_id : nat
}.

(** [PieceTypeRepository.get_by_code]: [filter(code == code).first()]. *)
Definition get_by_code (db : DB) (c : string) : option PieceType :=
  find (fun p => String.eqb (code p) c) (piece_types db).

(** [DesignRepository.get_by_id]: [session.get(Design, design_id)]. *)
Definition get_by_id (db : DB) (design_id : nat) : option DesignRow :=
  find (fun d => Nat.eqb (id d) design_id) (designs db).

(** The drawing numbers in use; a [NULL] one is not a value. *)
Definition drawing_numbers (db : DB) : list string :=
  flat_map (fun d => match drawing_number d with Some n => [n] | None => [] end) (designs db).

(** The flush of a new row: [uq_designs_drawing_number] (two [NULL]s never
    conflict in SQLite) is checked while the row is written, then the
    foreign key [piece_type_id -> piece_types.id] ([PRAGMA foreign_keys=ON])
    at the end of the statement. *)
Definition flush_insert (db : DB) (r : DesignRow) : outcome DB :=
  if match drawing_number r with
     | Some n => existsb (String.eqb n) (drawing_numbers db)
     | None => false
     end
  then Raise (IntegrityError "uq_designs_drawing_number")
  else if negb (existsb (fun p => Nat.eqb (pt_id p) (piece_type_id r)) (piece_types db))
  then Raise (IntegrityError "designs.piece_type_id")
  else Ok (mkDB (piece_types db) (designs db ++ [r]) (S (next_id db))).

(** [DesignRepository.create(piece_type_id, name, description,
    drawing_number)]; the two column defaults [_utcnow_str] are two clock
    readings, [created] and [updated]. *)
Definition create (db : DB) (created updated : string) (piece_type_id : nat) (name : string)
    (description : string) (drawing_number : option string) : outcome (DesignRow * DB) :=
  let design := {| id := next_id db; piece_type_id := piece_type_id; name := name;
                   description := Some description; drawing_number := drawing_number;
                   created_at := created; updated_at := updated |} in
  match flush_insert db design with
  | Ok db' => Ok (design, db')
  | Raise e => Raise e
  end.

Definition set_name (name : string) (now : string) (d : DesignRow) : DesignRow :=
  {| id := id d; piece_type_id := piece_type_id d; name := name;
     description := description d; drawing_number := drawing_number d;
     created_at := created_at d; updated_at := now |}.

(** [DesignRepository.update_name(design_id, name)]; [now] is
    [datetime.now(timezone.utc).isoformat()]. *)
Definition update_name (db : DB) (design_id : nat) (name : string) (now : string)
    : option DesignRow * DB :=
  match get_by_id db design_id with
  | Some _ =>
      let db' := mkDB (piece_types db)
                   (map (fun d => if Nat.eqb (id d) design_id then set_name name now d else d)
                        (designs db))
                   (next_id db) in
      (get_by_id db' design_id, db')
  | None => (None, db)
  end.

(** [PieceController.create_design(piece_type_code, name, description,
    drawing_number)]; an exception rolls the session back, so [Raise]
    leaves the tables as they were. *)
Definition create_design (db : DB) (created updated : string) (piece_type_code : string)
    (name : string) (description : string) (drawing_number : option string)
    : outcome (option DesignRow * DB) :=
  match get_by_code db piece_type_code with
  | None => Ok (None, db)
  | Some piece_type =>
      match create db created updated (pt_id piece_type) name description drawing_number with
      | Ok (design, db') => Ok (Some design, db')
      | Raise e => Raise e
      end
  end.

(** The table invariants the constraints maintain. *)
Definition design_inv (db : DB) : Prop :=
  NoDup (drawing_numbers db) /\
  Forall (fun d => In (piece_type_id d) (map pt_id (piece_types db))) (designs db) /\
  Forall (fun d => id d < next_id db) (designs db).

Lemma existsb_string_eqb n l : existsb (String.eqb n) l = true <-> In n l.
Proof.
  rewrite existsb_exists. split.
  - intros (x & Hx & E). apply String.eqb_eq in E. subst. exact Hx.
  - intros H. exists n. split; [exact H|apply String.eqb_refl].
Qed.

Lemma existsb_pt_id (pts : list PieceType) k :
  existsb (fun p => Nat.eqb (pt_id p) k) pts = true <-> In k (map pt_id pts).
Proof.
  rewrite existsb_exists, in_map_iff. split.
  - intros (p & Hp & E). apply Nat.eqb_eq in E. exists p. split; assumption.
  - intros (p & E & Hp). exists p. split; [exact Hp|apply Nat.eqb_eq, E].
Qed.

Lemma drawing_numbers_snoc pts ds n r :
  drawing_numbers (mkDB pts (ds ++ [r]) n) =
  drawing_numbers (mkDB pts ds n) ++
    match drawing_number r with Some m => [m] | None => [] end.
Proof. unfold drawing_numbers. simpl. rewrite flat_map_app. simpl. rewrite app_nil_r. reflexivity. Qed.

Lemma drawing_numbers_map pts ds n f :
  (forall d, drawing_number (f d) = drawing_number d) ->
  drawing_numbers (mkDB pts (map f ds) n) = drawing_numbers (mkDB pts ds n).
Proof.
  intros Hf. unfold drawing_numbers. cbn [designs].
  induction ds as [|d ds IH]; [reflexivity|]. simpl. rewrite Hf, IH. reflexivity.
Qed.

(** The outcome of one [create]. *)
Lemma create_cases db created updated pt name description dn :
  match create db created updated pt name description dn with
  | Ok (d, db') =>
      d = mkDesignRow (next_id db) pt name (Some description) dn created updated /\
      designs db' = designs db ++ [d] /\ next_id db' = S (next_id db) /\
      piece_types db' = piece_types db /\
      (forall n, dn = Some n -> ~ In n (drawing_numbers db)) /\
      In pt (map pt_id (piece_types db))
  | Raise e =>
      (exists n, dn = Some n /\ In n (drawing_numbers db) /\
                 e = IntegrityError "uq_designs_drawing_number") \/
      ((forall n, dn = Some n -> ~ In n (drawing_numbers db)) /\
       ~ In pt (map pt_id (piece_types db)) /\ e = IntegrityError "designs.piece_type_id")
  end.
Proof.
  unfold create, flush_insert. cbn [drawing_number piece_type_id].
  destruct (match dn with
            | Some n => existsb (String.eqb n) (drawing_numbers db)
            | None => false end) eqn:Eu.
  - left. destruct dn as [n|]; [|discriminate].
    exists n. split; [reflexivity|]. split; [apply existsb_string_eqb, Eu|reflexivity].
  - assert (Hu : forall n, dn = Some n -> ~ In n (drawing_numbers db)).
    { intros n -> Hin. apply existsb_string_eqb in Hin. congruence. }
    destruct (existsb (fun p => Nat.eqb (pt_id p) pt) (piece_types db)) eqn:Ef; simpl.
    + repeat split; try reflexivity. exact Hu. apply existsb_pt_id, Ef.
    + right. split; [exact Hu|]. split; [|reflexivity].
      intros Hin. apply existsb_pt_id in Hin. congruence.
Qed.

(** X13: a successful [DesignRepository.create] keeps the table
    invariants (distinct non-[NULL] drawing numbers, every design's piece
    type exists, ids below the next id), and [get_by_id] on the new id
    returns the new row. *)
Theorem design_create_keeps_invariant db created updated pt name description dn
    d db'
    (Hinv : design_inv db)
    (Hrun : create db created updated pt name description dn = Ok (d, db')) :
  design_inv db' /\ get_by_id db' (id d) = Some d.
Proof.
  pose proof (create_cases db created updated pt name description dn) as H. rewrite Hrun in H.
  destruct H as (Hd & Hds & Hn & Hpts & Hu & Hpt).
  destruct Hinv as (Hnd & Hfk & Hids).
  destruct db' as [pts' ds' n']. cbn in Hds, Hn, Hpts. subst ds' n' pts'.
  split; [split; [|split]|].
  - rewrite drawing_numbers_snoc. rewrite Hd. cbn [drawing_number].
    destruct dn as [m|]; [|rewrite app_nil_r; exact Hnd].
    apply NoDup_app; [exact Hnd|repeat constructor; simpl; tauto|].
    intros x Hx [Ex|[]]. subst x. exact (Hu _ eq_refl Hx).
  - cbn. apply Forall_app. split; [exact Hfk|]. constructor; [|constructor].
    rewrite Hd. exact Hpt.
  - cbn. apply Forall_app. split.
    + eapply Forall_impl; [|exact Hids]. intros r Hr. cbv beta in *. lia.
    + constructor; [rewrite Hd; cbn; lia|constructor].
  - unfold get_by_id. cbn [designs].
    assert (Hnone : find (fun r => Nat.eqb (id r) (id d)) (designs db) = None).
    { rewrite Hd. cbn [id]. clear Hnd Hfk Hd Hrun. induction Hids as [|r l Hr Hl IH]; simpl;
        [reflexivity|].
      destruct (Nat.eqb_spec (id r) (next_id db)); [lia|exact IH]. }
    rewrite StoreMore.find_app_absent by exact Hnone. rewrite Nat.eqb_refl. reflexivity.
Qed.

(** X14: [DesignRepository.update_name] on an unknown id returns [None]
    and changes nothing; otherwise it sets [name] and [updated_at] of that
    row only, returns the updated row, and keeps the table invariants. *)
Theorem update_name_only_name design_id db name now :
  let '(res, db') := update_name db design_id name now in
  piece_types db' = piece_types db /\ next_id db' = next_id db /\
  (get_by_id db design_id = None -> res = None /\ db' = db) /\
  res = option_map (set_name name now) (get_by_id db design_id) /\
  Forall2 (fun r r' =>
             if Nat.eqb (id r) design_id
             then r' = mkDesignRow (id r) (piece_type_id r) name (description r)
                         (drawing_number r) (created_at r) now
             else r' = r)
          (designs db) (designs db') /\
  (design_inv db -> design_inv db').
Proof.
  unfold update_name.
  destruct (get_by_id db design_id) as [r0|] eqn:E.
  - cbn [piece_types next_id designs].
    split; [reflexivity|]. split; [reflexivity|]. split; [discriminate|].
    split.
    { unfold get_by_id in *. cbn [designs]. revert E.
      induction (designs db) as [|r l IH]; intros E; [discriminate|].
      simpl in E |- *. destruct (Nat.eqb (id r) design_id) eqn:Er.
      - inversion E; subst r0. simpl. rewrite Er. reflexivity.
      - rewrite ?Er. apply IH, E. }
    split.
    { clear E. induction (designs db) as [|r l IH]; simpl; constructor; [|exact IH].
      destruct (Nat.eqb (id r) design_id); reflexivity. }
    intros (Hnd & Hfk & Hids). split; [|split].
    + rewrite drawing_numbers_map; [exact Hnd|].
      intros r. destruct (Nat.eqb (id r) design_id); reflexivity.
    + cbn [designs piece_types] in *. apply Forall_map. eapply Forall_impl; [|exact Hfk].
      intros r Hr. destruct (Nat.eqb (id r) design_id); exact Hr.
    + cbn [designs next_id] in *. apply Forall_map. eapply Forall_impl; [|exact Hids].
      intros r Hr. destruct (Nat.eqb (id r) design_id); exact Hr.
  - split; [reflexivity|]. split; [reflexivity|]. split; [intros _; split; reflexivity|].
    split; [reflexivity|]. split; [|tauto].
    unfold get_by_id in E.
    assert (Hf : forall r, In r (designs db) -> Nat.eqb (id r) design_id = false)
      by (intros r Hr; exact (find_none _ _ E r Hr)).
    clear E. revert Hf.
    induction (designs db) as [|r l IH]; intros Hf; constructor.
    + rewrite (Hf r (or_introl eq_refl)). reflexivity.
    + apply IH. intros r' Hr'. apply Hf. right. exact Hr'.
Qed.

(** X15: [PieceController.create_design] with a code no piece type has
    returns [None] and writes nothing; otherwise it creates the design
    under the first piece type with that code.  It never fails on the
    piece-type foreign key: the only error is a drawing number already
    in use. *)
Theorem create_design_outcome db created updated piece_type_code name description dn :
  match create_design db created updated piece_type_code name description dn with
  | Ok (None, db') =>
      db' = db /\ forall p, In p (piece_types db) -> code p <> piece_type_code
  | Ok (Some d, db') =>
      exists p, get_by_code db piece_type_code = Some p /\ code p = piece_type_code /\
        d = mkDesignRow (next_id db) (pt_id p) name (Some description) dn created updated /\
        designs db' = designs db ++ [d] /\ piece_types db' = piece_types db
  | Raise e =>
      exists n, dn = Some n /\ In n (drawing_numbers db) /\
                e = IntegrityError "uq_designs_drawing_number"
  end.
Proof.
  unfold create_design.
  destruct (get_by_code db piece_type_code) as [p|] eqn:Ep.
  - pose proof (create_cases db created updated (pt_id p) name description dn) as H.
    unfold get_by_code in Ep.
    assert (Hc : code p = piece_type_code)
      by (apply find_some in Ep as [_ Ec]; apply String.eqb_eq, Ec).
    assert (Hin : In (pt_id p) (map pt_id (piece_types db)))
      by (apply in_map; apply find_some in Ep as [Hp _]; exact Hp).
    destruct (create db created updated (pt_id p) name description dn) as [[d db']|e].
    + destruct H as (Hd & Hds & _ & Hpts & _). exists p. repeat split; assumption.
    + destruct H as [H|(_ & Hnot & _)]; [exact H|contradiction].
  - split; [reflexivity|]. intros p Hp Ec.
    unfold get_by_code in Ep. pose proof (find_none _ _ Ep p Hp) as Hf. cbv beta in Hf.
    rewrite Ec, String.eqb_refl in Hf. discriminate.
Qed.

Definition plate_db : DB := mkDB [AllocationOrder.plate] [] 1.

Lemma design_create_keeps_invariant_witness :
  exists d db',
    design_inv plate_db /\
    create plate_db "2026-01-01T10:00:00+00:00" "2026-01-01T10:00:00+00:00" 1 "Placa 1" ""
      (Some "PL-001") = Ok (d, db') /\
    get_by_id db' 1 = Some d /\ design_inv db'.
Proof.
  do 2 eexists.
  assert (Hinv : design_inv plate_db) by (repeat constructor).
  split; [exact Hinv|]. split; [reflexivity|].
  match goal with
  | |- get_by_id ?db' _ = Some ?d /\ _ =>
      destruct (design_create_keeps_invariant plate_db "2026-01-01T10:00:00+00:00"
                  "2026-01-01T10:00:00+00:00" 1 "Placa 1" "" (Some "PL-001") d db'
                  Hinv eq_refl) as [Hinv' Hget]
  end.
  split; [exact Hget|exact Hinv'].
Defined.

End DesignRepo.

(* ------------------------------------------------------------------ *)
(** ** catalog_loader.py [PieceSpec.get_defaults], [get_parameter],
    [CatalogLoader.get_piece], [get_validation_rules] *)

Module Catalog.

(** [d[key] = value] on a dict with string keys: an existing key keeps
    its position and takes the new value, a new key goes last. *)
Fixpoint dset {V} (d : list (string * V)) (k : string) (v : V) : list (string * V) :=
  match d with
  | [] => [(k, v)]
  | (k', v') :: rest => if String.eqb k k' then (k', v) :: rest else (k', v') :: dset rest k v
  end.

(** [d.get(key)] *)
Fixpoint dget {V} (d : list (string * V)) (k : string) : option V :=
  match d with
  | [] => None
  | (k', v) :: rest => if String.eqb k k' then Some v else dget rest k
  end.

(** [ParameterSpec]: the two fields these functions read. *)
Record ParameterSpec := mkParameterSpec { name : string; default : pyval }.

(** [next((p for p in self.parameters if p.name == name), None)] *)
Definition get_parameter (parameters : list ParameterSpec) (n : string) : option ParameterSpec :=
  find (fun p => String.eqb (name p) n) parameters.

(** [{p.name: p.default for p in self.parameters}] *)
Definition get_defaults (parameters : list ParameterSpec) : list (string * pyval) :=
  fold_left (fun d p => dset d (name p) (default p)) parameters [].

(** An entry of [raw["pieces"]]: its ["code"] and its
    ["validation_rules"] ([None] when the key is missing). *)
Record RawPiece := mkRawPiece {
  raw_code : option string;
  raw_validation_rules : option (list Validation.Rule)
}.

(** [p["code"] == code] for an entry that has a code. *)
Definition code_is (c : string) (p : RawPiece) : bool :=
  match raw_code p with Some k => String.eqb k c | None => false end.

(** [piece_data.get("validation_rules", [])] *)
Definition rules_or_empty (p : RawPiece) : list Validation.Rule :=
  match raw_validation_rules p with Some r => r | None => [] end.

Section Loader.

(** [PieceSpec] and [_parse_piece]: [None] is the [KeyError] it raises
    for an entry without one of its required keys ([code],
    [display_name], [discipline], [category], or a required key of one
    of its parameters, rules or BOM items). *)
Variable PieceSpec : Type.
Variable parse_piece : RawPiece -> option PieceSpec.

(** One iteration of the loop of [_ensure_loaded]:
    [self._pieces[piece_data["code"]] = self._parse_piece(piece_data)],
    whose right-hand side is evaluated first. *)
Definition load_step (acc : option (list (string * PieceSpec))) (pd : RawPiece)
    : option (list (string * PieceSpec)) :=
  match acc with
  | None => None
  | Some d =>
      match parse_piece pd with
      | None => None
      | Some ps => match raw_code pd with Some k => Some (dset d k ps) | None => None end
      end
  end.

(** [_ensure_loaded] on the catalog entries [raw.get("pieces", [])]:
    the dict [self._pieces], or [None] for the [KeyError] that escapes.
    A failed load leaves [_loaded] false, so every later call parses the
    same file again and raises again; a successful load is cached.  In
    what follows, [None] is that [KeyError]. *)
Definition ensure_loaded (pieces : list RawPiece) : option (list (string * PieceSpec)) :=
  fold_left load_step pieces (Some []).

(** [get_piece(code)]: [self._ensure_loaded()]; [self._pieces.get(code)]. *)
Definition get_piece (pieces : list RawPiece) (c : string) : option (option PieceSpec) :=
  option_map (fun d => dget d c) (ensure_loaded pieces).

(** [get_all_pieces()]: [self._ensure_loaded()]; [list(self._pieces.values())]. *)
Definition get_all_pieces (pieces : list RawPiece) : option (list PieceSpec) :=
  option_map (map snd) (ensure_loaded pieces).

(** [next((p for p in pieces if p["code"] == code), None)]; [None] for
    the [KeyError] of an entry without a code met before a match. *)
Fixpoint first_with_code (pieces : list RawPiece) (c : string) : option (option RawPiece) :=
  match pieces with
  | [] => Some None
  | p :: rest =>
      match raw_code p with
      | None => None
      | Some k => if String.eqb k c then Some (Some p) else first_with_code rest c
      end
  end.

(** [get_validation_rules(code)]: [self._ensure_loaded()], then the
    rules of the first entry with that code, or [[]]. *)
Definition get_validation_rules (pieces : list RawPiece) (c : string)
    : option (list Validation.Rule) :=
  match ensure_loaded pieces with
  | None => None
  | Some _ =>
      match first_with_code pieces c with
      | None => None
      | Some (Some p) => Some (rules_or_empty p)
      | Some None => Some []
      end
  end.

End Loader.

Section Assign.

Context {A V : Type} (key : A -> string) (val : A -> V).

Definition assign_all (l : list A) : list (string * V) :=
  fold_left (fun d x => dset d (key x) (val x)) l [].

Lemma dget_dset (d : list (string * V)) k k' (v : V) : dget (dset d k' v) k = if String.eqb k k' then Some v else dget d k.
Proof.
  induction d as [|[k0 v0] d IH]; simpl; [reflexivity|].
  destruct (String.eqb_spec k' k0) as [->|Hne]; simpl.
  - destruct (String.eqb k k0); reflexivity.
  - rewrite IH. destruct (String.eqb_spec k k0), (String.eqb_spec k k'); subst; try reflexivity.
    congruence.
Qed.

Lemma keys_dset (d : list (string * V)) k (v : V) : map fst (dset d k v) =
  if existsb (String.eqb k) (map fst d) then map fst d else map fst d ++ [k].
Proof.
  induction d as [|[k0 v0] d IH]; simpl; [reflexivity|].
  destruct (String.eqb k k0); simpl; [reflexivity|].
  rewrite IH. destruct (existsb _ _); reflexivity.
Qed.

Lemma assign_all_snoc l x :
  assign_all (l ++ [x]) = dset (assign_all l) (key x) (val x).
Proof. unfold assign_all. rewrite fold_left_app. reflexivity. Qed.

Lemma dget_assign_all l k :
  dget (assign_all l) k =
    option_map val (find (fun x => String.eqb (key x) k) (rev l)).
Proof.
  induction l as [|x l IH] using rev_ind; [reflexivity|].
  rewrite assign_all_snoc, dget_dset, rev_app_distr. simpl.
  rewrite String.eqb_sym. destruct (String.eqb (key x) k); [reflexivity|exact IH].
Qed.

Lemma keys_assign_all l :
  NoDup (map fst (assign_all l)) /\
  forall k, In k (map fst (assign_all l)) <-> In k (map key l).
Proof.
  induction l as [|x l [Hnd Hin]] using rev_ind; [split; [constructor|reflexivity]|].
  rewrite assign_all_snoc, keys_dset, map_app. simpl.
  destruct (existsb (String.eqb (key x)) (map fst (assign_all l))) eqn:E.
  - apply existsb_exists in E as (k' & Hk' & Ek). apply String.eqb_eq in Ek. subst k'.
    split; [exact Hnd|]. intros k. rewrite Hin, in_app_iff. simpl.
    split; [tauto|]. intros [H|[<-|[]]]; [exact H|apply Hin, Hk'].
  - split.
    + apply NoDup_app; [exact Hnd|repeat constructor; simpl; tauto|].
      intros k Hk [Ek|[]]. subst k.
      assert (Hx : existsb (String.eqb (key x)) (map fst (assign_all l)) = true)
        by (apply existsb_exists; exists (key x); split; [exact Hk|apply String.eqb_refl]).
      congruence.
    + intros k. rewrite !in_app_iff, Hin. reflexivity.
Qed.

Lemma dset_fresh (d : list (string * V)) k (v : V) : ~ In k (map fst d) -> dset d k v = d ++ [(k, v)].
Proof.
  induction d as [|[k' v'] d IH]; intros Hk; [reflexivity|].
  simpl in *. destruct (String.eqb_spec k k') as [->|Hne]; [tauto|].
  rewrite IH by tauto. reflexivity.
Qed.

Lemma assign_all_distinct l :
  NoDup (map key l) -> assign_all l = map (fun x => (key x, val x)) l.
Proof.
  induction l as [|x l IH] using rev_ind; intros Hnd; [reflexivity|].
  rewrite map_app in Hnd. simpl in Hnd.
  rewrite assign_all_snoc, IH by (eapply NoDup_app_remove_r; exact Hnd).
  rewrite dset_fresh, map_app; [reflexivity|].
  rewrite map_map. simpl. intros Hin.
  apply (NoDup_remove_2 _ [] _ Hnd). rewrite app_nil_r. exact Hin.
Qed.

Lemma find_app_split {B} (f : B -> bool) l1 l2 :
  find f (l1 ++ l2) = match find f l1 with Some y => Some y | None => find f l2 end.
Proof. induction l1 as [|y l1 IH]; simpl; [reflexivity|]. destruct (f y); [reflexivity|exact IH]. Qed.

Lemma find_rev_distinct l k :
  NoDup (map key l) ->
  find (fun x => String.eqb (key x) k) (rev l) = find (fun x => String.eqb (key x) k) l.
Proof.
  induction l as [|x l IH] using rev_ind; intros Hnd; [reflexivity|].
  rewrite map_app in Hnd. simpl in Hnd.
  rewrite rev_app_distr. simpl. rewrite find_app_split.
  rewrite IH by (eapply NoDup_app_remove_r; exact Hnd).
  destruct (String.eqb (key x) k) eqn:Ek.
  - destruct (find (fun y => String.eqb (key y) k) l) as [y|] eqn:Ey;
      [|simpl; rewrite Ek; reflexivity].
    exfalso. apply find_some in Ey as [Hy Eky]. apply String.eqb_eq in Eky, Ek.
    apply (NoDup_remove_2 _ [] _ Hnd). rewrite app_nil_r, Ek, <- Eky. apply in_map, Hy.
  - destruct (find _ l); simpl; [reflexivity|]. rewrite Ek. reflexivity.
Qed.

Lemma length_assign_all l : length (assign_all l) <= length l.
Proof.
  induction l as [|x l IH] using rev_ind; [simpl; lia|].
  rewrite assign_all_snoc, length_app. simpl.
  rewrite <- (length_map fst (dset _ _ _)), keys_dset.
  destruct (existsb _ _); rewrite ?length_app, length_map; simpl; lia.
Qed.

End Assign.

(** X16: [get_defaults] has one key per distinct parameter name; each
    key holds the default of the LAST parameter with that name, while
    [get_parameter] returns the FIRST.  With distinct names the dict
    lists every parameter in order and agrees with [get_parameter]. *)
Theorem get_defaults_last_wins (parameters : list ParameterSpec) (n : string) :
  NoDup (map fst (get_defaults parameters)) /\
  (forall k, In k (map fst (get_defaults parameters)) <-> In k (map name parameters)) /\
  dget (get_defaults parameters) n =
    option_map default (find (fun p => String.eqb (name p) n) (rev parameters)) /\
  (NoDup (map name parameters) ->
   get_defaults parameters = map (fun p => (name p, default p)) parameters /\
   dget (get_defaults parameters) n = option_map default (get_parameter parameters n)).
Proof.
  destruct (keys_assign_all name default parameters) as [Hnd Hin].
  split; [exact Hnd|]. split; [exact Hin|].
  split; [apply dget_assign_all|].
  intros Hdist. split; [apply assign_all_distinct, Hdist|].
  unfold get_parameter. rewrite <- find_rev_distinct by exact Hdist.
  apply dget_assign_all.
Qed.

Lemma length_dset {V} (d : list (string * V)) k v : length (dset d k v) <= S (length d).
Proof.
  induction d as [|[k' v'] d IH]; simpl; [lia|].
  destruct (String.eqb k k'); simpl; lia.
Qed.

Lemma code_is_true c p : code_is c p = true -> raw_code p = Some c.
Proof.
  unfold code_is. destruct (raw_code p) as [k|]; [|discriminate].
  intros E. apply String.eqb_eq in E. subst k. reflexivity.
Qed.

Section LoaderFacts.

Variable PieceSpec : Type.
Variable parse_piece : RawPiece -> option PieceSpec.

(** An entry [_parse_piece] parses and that has a code. *)
Definition entry_ok (p : RawPiece) : Prop := parse_piece p <> None /\ raw_code p <> None.

Lemma fold_load_none l : fold_left (load_step PieceSpec parse_piece) l None = None.
Proof. induction l as [|x l IH]; [reflexivity|exact IH]. Qed.

Lemma ensure_loaded_snoc l x :
  ensure_loaded PieceSpec parse_piece (l ++ [x]) =
    load_step PieceSpec parse_piece (ensure_loaded PieceSpec parse_piece l) x.
Proof. unfold ensure_loaded. rewrite fold_left_app. reflexivity. Qed.

Lemma ensure_loaded_none l :
  ensure_loaded PieceSpec parse_piece l = None <->
  Exists (fun p => parse_piece p = None \/ raw_code p = None) l.
Proof.
  induction l as [|x l IH] using rev_ind.
  - split; [discriminate|intros H; inversion H].
  - rewrite ensure_loaded_snoc, Exists_app, Exists_cons, Exists_nil.
    unfold load_step. destruct (ensure_loaded PieceSpec parse_piece l) as [d|] eqn:E.
    + assert (Hl : ~ Exists (fun p => parse_piece p = None \/ raw_code p = None) l)
        by (rewrite <- IH; discriminate).
      destruct (parse_piece x) as [ps|] eqn:Ep; [destruct (raw_code x) as [k|] eqn:Ek|].
      * split; [discriminate|]. intros [H|[[H|H]|[]]]; [tauto|discriminate|discriminate].
      * split; [intros _; right; left; right; reflexivity|reflexivity].
      * split; [intros _; right; left; left; reflexivity|reflexivity].
    + split; [intros _; left; apply IH; reflexivity|reflexivity].
Qed.

Lemma ensure_loaded_codes l :
  ensure_loaded PieceSpec parse_piece l <> None -> Forall (fun p => raw_code p <> None) l.
Proof.
  intros H. rewrite ensure_loaded_none in H.
  apply Forall_forall. intros p Hp Ep. apply H, Exists_exists. exists p. tauto.
Qed.

Lemma ensure_loaded_ok l :
  Forall entry_ok l ->
  exists d, ensure_loaded PieceSpec parse_piece l = Some d /\
    (forall c, dget d c = match find (code_is c) (rev l) with
                          | Some p => parse_piece p | None => None end) /\
    (forall k, In k (map fst d) <-> In (Some k) (map raw_code l)) /\
    length d <= length l /\
    (NoDup (map raw_code l) -> map (fun kv => Some (snd kv)) d = map parse_piece l).
Proof.
  induction l as [|x l IH] using rev_ind; intros Hall.
  - exists []. split; [reflexivity|]. split; [reflexivity|].
    split; [simpl; tauto|]. split; [simpl; lia|reflexivity].
  - apply Forall_app in Hall as [Hl Hx]. inversion Hx as [|? ? [Hp Hc] _]; subst.
    destruct (IH Hl) as (d & Ed & Hget & Hkeys & Hlen & Hdist).
    destruct (parse_piece x) as [ps|] eqn:Ep; [|contradiction].
    destruct (raw_code x) as [k|] eqn:Ek; [|contradiction].
    exists (dset d k ps). rewrite ensure_loaded_snoc, Ed. unfold load_step.
    rewrite Ep, Ek. split; [reflexivity|].
    split.
    { intros c. rewrite dget_dset, rev_app_distr. simpl.
      unfold code_is at 1. rewrite Ek, (String.eqb_sym c k).
      destruct (String.eqb k c); [symmetry; exact Ep|apply Hget]. }
    split.
    { intros k'. rewrite keys_dset, map_app, in_app_iff. simpl. rewrite Ek.
      destruct (existsb (String.eqb k) (map fst d)) eqn:Ex.
      - apply existsb_exists in Ex as (k0 & Hk0 & E0). apply String.eqb_eq in E0. subst k0.
        rewrite Hkeys. split; [tauto|]. intros [H|[H|[]]]; [exact H|].
        injection H as <-. apply Hkeys, Hk0.
      - rewrite in_app_iff, Hkeys. simpl.
        split; intros [H|H]; [tauto| |tauto|].
        + destruct H as [<-|[]]. tauto.
        + destruct H as [H|[]]. injection H as <-. tauto. }
    split.
    { pose proof (length_dset d k ps). rewrite length_app. simpl. lia. }
    intros Hnd. rewrite map_app in Hnd. simpl in Hnd. rewrite Ek in Hnd.
    assert (Hk : ~ In k (map fst d)).
    { intros Hin. apply Hkeys in Hin. pose proof (NoDup_remove_2 _ _ _ Hnd) as H.
      rewrite app_nil_r in H. exact (H Hin). }
    rewrite dset_fresh by exact Hk. rewrite !map_app, Hdist by (eapply NoDup_app_remove_r; exact Hnd).
    simpl. rewrite Ep. reflexivity.
Qed.

Lemma first_with_code_ok l c :
  Forall (fun p => raw_code p <> None) l -> first_with_code l c = Some (find (code_is c) l).
Proof.
  intros H. induction H as [|p l Hp Hl IH]; [reflexivity|].
  cbn [first_with_code find]. destruct (raw_code p) as [k|] eqn:E; [|contradiction].
  replace (code_is c p) with (String.eqb k c) by (unfold code_is; rewrite E; reflexivity).
  destruct (String.eqb k c); [reflexivity|exact IH].
Qed.

Lemma find_rev_code l c :
  NoDup (map raw_code l) -> find (code_is c) (rev l) = find (code_is c) l.
Proof.
  induction l as [|x l IH] using rev_ind; intros Hnd; [reflexivity|].
  rewrite map_app in Hnd. simpl in Hnd.
  rewrite rev_app_distr. simpl. rewrite find_app_split.
  rewrite IH by (eapply NoDup_app_remove_r; exact Hnd).
  destruct (code_is c x) eqn:Ex.
  - destruct (find (code_is c) l) as [y|] eqn:Ey; [|simpl; rewrite Ex; reflexivity].
    exfalso. apply find_some in Ey as [Hy Ecy].
    apply code_is_true in Ecy, Ex.
    pose proof (NoDup_remove_2 _ _ _ Hnd) as H. rewrite app_nil_r in H.
    apply H. rewrite Ex, <- Ecy. apply in_map, Hy.
  - destruct (find _ l); simpl; [reflexivity|]. rewrite Ex. reflexivity.
Qed.

End LoaderFacts.

(** X17: loading the catalog fails with [KeyError] exactly when some
    entry does not parse or has no code, and then [get_piece],
    [get_all_pieces] and [get_validation_rules] all raise.  When every
    entry parses, [get_piece] returns the parse of the LAST entry with
    the code, while [get_validation_rules] reads the FIRST, and
    [get_all_pieces] has at most one piece per entry; with distinct
    codes both read the same entry and [get_all_pieces] holds every
    entry's parse, in catalog order. *)
Theorem get_piece_last_entry (PieceSpec : Type) (parse_piece : RawPiece -> option PieceSpec)
    (pieces : list RawPiece) (c : string) :
  (get_all_pieces PieceSpec parse_piece pieces = None <->
   Exists (fun p => parse_piece p = None \/ raw_code p = None) pieces) /\
  (get_piece PieceSpec parse_piece pieces c = None <->
   get_all_pieces PieceSpec parse_piece pieces = None) /\
  (get_validation_rules PieceSpec parse_piece pieces c = None <->
   get_all_pieces PieceSpec parse_piece pieces = None) /\
  (Forall (entry_ok PieceSpec parse_piece) pieces ->
   get_piece PieceSpec parse_piece pieces c =
     Some (match find (code_is c) (rev pieces) with Some p => parse_piece p | None => None end) /\
   get_validation_rules PieceSpec parse_piece pieces c =
     Some (match find (code_is c) pieces with Some p => rules_or_empty p | None => [] end) /\
   (exists l, get_all_pieces PieceSpec parse_piece pieces = Some l /\
              length l <= length pieces) /\
   (NoDup (map raw_code pieces) ->
    get_piece PieceSpec parse_piece pieces c =
      Some (match find (code_is c) pieces with Some p => parse_piece p | None => None end) /\
    exists l, get_all_pieces PieceSpec parse_piece pieces = Some l /\
              map Some l = map parse_piece pieces)).
Proof.
  assert (Hall : get_all_pieces PieceSpec parse_piece pieces = None <->
                 ensure_loaded PieceSpec parse_piece pieces = None).
  { unfold get_all_pieces. destruct (ensure_loaded _ _ _); simpl; split; congruence. }
  split; [rewrite Hall; apply ensure_loaded_none|].
  split.
  { rewrite Hall. unfold get_piece. destruct (ensure_loaded _ _ _); simpl; split; congruence. }
  split.
  { rewrite Hall. unfold get_validation_rules.
    destruct (ensure_loaded PieceSpec parse_piece pieces) as [d|] eqn:E; [|tauto].
    rewrite (first_with_code_ok pieces c) by (apply (ensure_loaded_codes PieceSpec parse_piece);
                                               congruence).
    destruct (find _ _); split; discriminate. }
  intros Hok.
  destruct (ensure_loaded_ok PieceSpec parse_piece pieces Hok)
    as (d & Ed & Hget & _ & Hlen & Hdist).
  assert (Hcodes : Forall (fun p => raw_code p <> None) pieces)
    by (eapply Forall_impl; [|exact Hok]; intros p [_ H]; exact H).
  unfold get_piece, get_all_pieces, get_validation_rules. rewrite Ed. simpl.
  split; [rewrite Hget; reflexivity|].
  split; [rewrite first_with_code_ok by exact Hcodes; destruct (find _ _); reflexivity|].
  split; [exists (map snd d); split; [reflexivity|rewrite length_map; exact Hlen]|].
  intros Hnd. split; [rewrite Hget, find_rev_code by exact Hnd; reflexivity|].
  exists (map snd d). split; [reflexivity|]. rewrite <- (Hdist Hnd), !map_map. reflexivity.
Qed.

(** A catalog with an entry [bp] and an entry [cp] that lacks
    [display_name]: the load raises, and so does every lookup, even of
    [bp]. *)
Example catalog_bad_entry :
  let bp := mkRawPiece (Some "bp") (Some []) in
  let cp := mkRawPiece (Some "cp") None in
  let parse (p : RawPiece) : option string :=
    if code_is "cp" p then None else raw_code p in
  get_piece string parse [bp; cp] "bp" = None /\
  get_all_pieces string parse [bp; cp] = None /\
  get_validation_rules string parse [bp; cp] "bp" = None.
Proof. repeat split. Qed.

End Catalog.

(* ------------------------------------------------------------------ *)
(** ** repositories.py [BOMRepository] *)

Module Bom.

(** A row of [bom_items]. *)
Record BOMItem := mkBOMItem {
  id : nat;
  revision_id : nat;
  item_number : nat;
  part_code : option string;
  description : string;
  quantity : pyval;
  unit : string;
  material : option string;
  standard : option string;
  unit_weight_kg : option pyval;
  observations : option string
}.

(** One dict of [items]; [None] is a missing key ([.get] gives [None]
    for it, as for a [null] value). *)
Record ItemData := mkItemData {
  d_description : option string;
  d_quantity : option pyval;
  d_unit : option string;
  d_part_code : option string;
  d_material : option string;
  d_standard : option string;
  d_unit_weight_kg : option pyval;
  d_observations : option string
}.

Record BomStore := mkBomStore { rows : list BOMItem; next_id : nat }.

(** What [create_items] can raise: [KeyError] for [item_data["description"]],
    [IntegrityError] at the flush. *)
Inductive BomError :=
  | KeyError (key : string)
  | BomIntegrityError (constraint : string).

(** The float [1.0]. *)
Definition one : spec_float := S754_finite false 4503599627370496 (-52).

(** The loop [for idx, item_data in enumerate(items, start=1)]; the rows
    get their autoincrement ids at the flush, in the order they were
    added. *)
Fixpoint build (rid : nat) (idx : nat) (next : nat) (items : list ItemData)
    : BomError + list BOMItem :=
  match items with
  | [] => inr []
  | it :: rest =>
      match d_description it with
      | None => inl (KeyError "description")
      | Some desc =>
          let bom_item :=
            {| id := next; revision_id := rid; item_number := idx;
               part_code := d_part_code it; description := desc;
               quantity := match d_quantity it with Some q => q | None => PFloat one end;
               unit := match d_unit it with Some u => u | None => "UN" end;
               material := d_material it; standard := d_standard it;
               unit_weight_kg := d_unit_weight_kg it; observations := d_observations it |} in
          match build rid (S idx) (S next) rest with
          | inl e => inl e
          | inr l => inr (bom_item :: l)
          end
      end
  end.

(** [session.flush()]: one INSERT per new row, in order; SQLite checks
    [uq_bom_item_number] while writing the row and the foreign key
    [revision_id -> revisions.id] at the end of the statement. *)
Fixpoint flush (revision_ids : list nat) (acc : list BOMItem) (new : list BOMItem)
    : BomError + list BOMItem :=
  match new with
  | [] => inr acc
  | r :: rest =>
      if existsb (fun x => Nat.eqb (revision_id x) (revision_id r)
                           && Nat.eqb (item_number x) (item_number r)) acc
      then inl (BomIntegrityError "uq_bom_item_number")
      else if negb (existsb (Nat.eqb (revision_id r)) revision_ids)
      then inl (BomIntegrityError "bom_items.revision_id")
      else flush revision_ids (acc ++ [r]) rest
  end.

(** [BOMRepository.create_items(revision_id, items)]; [revision_ids] are
    the ids of the [revisions] table. *)
Definition create_items (revision_ids : list nat) (s : BomStore) (rid : nat)
    (items : list ItemData) : BomError + (list BOMItem * BomStore) :=
  match build rid 1 (next_id s) items with
  | inl e => inl e
  | inr created =>
      match flush revision_ids (rows s) created with
      | inl e => inl e
      | inr rows' => inr (created, mkBomStore rows' (next_id s + length created))
      end
  end.

(** [get_by_revision(revision_id)]: [filter(revision_id == ...)
    .order_by(item_number.asc())]; any order of the rows sorted by
    [item_number] is a possible result. *)
Definition get_by_revision_result (s : BomStore) (rid : nat) (result : list BOMItem) : Prop :=
  Permutation result (filter (fun b => Nat.eqb (revision_id b) rid) (rows s)) /\
  Sorted (fun a b => item_number a <= item_number b) result.

Lemma build_shape rid items : forall idx next created,
  build rid idx next items = inr created ->
  map item_number created = seq idx (length items) /\
  map id created = seq next (length items) /\
  Forall (fun b => revision_id b = rid) created /\
  map Some (map description created) = map d_description items.
Proof.
  induction items as [|it rest IH]; intros idx next created H; simpl in H.
  - inversion H; subst. repeat split; constructor.
  - destruct (d_description it) as [desc|] eqn:Ed; [|discriminate].
    destruct (build rid (S idx) (S next) rest) as [e|l] eqn:Eb; [discriminate|].
    inversion H; subst created. destruct (IH _ _ _ Eb) as (H1 & H2 & H3 & H4).
    simpl. rewrite H1, H2, H4, Ed. repeat split; try reflexivity. constructor; [reflexivity|exact H3].
Qed.

Lemma flush_ok revision_ids new : forall acc rows',
  flush revision_ids acc new = inr rows' -> rows' = acc ++ new.
Proof.
  induction new as [|r rest IH]; intros acc rows' H; simpl in H.
  - inversion H. rewrite app_nil_r. reflexivity.
  - destruct (existsb _ acc); [discriminate|].
    destruct (negb _); [discriminate|]. rewrite (IH _ _ H), <- app_assoc. reflexivity.
Qed.

Lemma sorted_seq_unique (l m : list BOMItem) :
  Permutation l m -> Sorted (fun a b => item_number a <= item_number b) l ->
  StronglySorted (fun a b => item_number a < item_number b) m -> l = m.
Proof.
  revert m. induction l as [|x l IH]; intros m Hp Hs Hm.
  - apply Permutation_nil in Hp. subst. reflexivity.
  - apply Sorted_StronglySorted in Hs; [|intros a b c; lia].
    destruct m as [|y m]; [apply Permutation_sym, Permutation_nil_cons in Hp; contradiction|].
    inversion Hs as [|? ? Hsl Hxl]; subst. inversion Hm as [|? ? Hsm Hym]; subst.
    assert (Exy : x = y).
    { destruct (Permutation_in x Hp (or_introl eq_refl)) as [->|Hx]; [reflexivity|].
      assert (Hy : In y (x :: l)) by (apply (Permutation_in y (Permutation_sym Hp)); left; reflexivity).
      destruct Hy as [->|Hy]; [reflexivity|].
      pose proof (proj1 (Forall_forall _ _) Hym x Hx).
      pose proof (proj1 (Forall_forall _ _) Hxl y Hy). cbv beta in *. lia. }
    subst y. f_equal. apply IH.
    + apply Permutation_cons_inv in Hp. exact Hp.
    + apply StronglySorted_Sorted, Hsl.
    + exact Hsm.
Qed.

Lemma strongly_sorted_seq (created : list BOMItem) idx n :
  map item_number created = seq idx n ->
  StronglySorted (fun a b => item_number a < item_number b) created.
Proof.
  revert idx n. induction created as [|b l IH]; intros idx n H; [constructor|].
  destruct n as [|n]; [discriminate|]. simpl in H. injection H as Hb Hl.
  constructor; [exact (IH _ _ Hl)|].
  apply Forall_forall. intros c Hc.
  assert (In (item_number c) (seq (S idx) n)) by (rewrite <- Hl; apply in_map, Hc).
  apply in_seq in H. lia.
Qed.

(** X18: a successful [create_items] for a revision with no BOM items yet
    appends the new rows, numbered [1 .. len(items)] in list order with
    consecutive ids and the given descriptions, and afterwards every
    order [get_by_revision] may return is exactly that list. *)
Theorem create_items_numbering revision_ids s rid items created s'
    (Hfresh : Forall (fun b => revision_id b <> rid) (rows s))
    (Hrun : create_items revision_ids s rid items = inr (created, s')) :
  rows s' = rows s ++ created /\ next_id s' = next_id s + length items /\
  map item_number created = seq 1 (length items) /\
  map id created = seq (next_id s) (length items) /\
  map Some (map description created) = map d_description items /\
  forall result, get_by_revision_result s' rid result -> result = created.
Proof.
  unfold create_items in Hrun.
  destruct (build rid 1 (next_id s) items) as [e|c] eqn:Eb; [discriminate|].
  destruct (flush revision_ids (rows s) c) as [e|rows'] eqn:Ef; [discriminate|].
  inversion Hrun; subst c s'. clear Hrun.
  destruct (build_shape _ _ _ _ _ Eb) as (Hnum & Hid & Hrid & Hdesc).
  apply flush_ok in Ef. subst rows'.
  assert (Hlen : length created = length items)
    by (rewrite <- (length_map item_number created), Hnum, length_seq; reflexivity).
  split; [reflexivity|]. split; [cbn; rewrite Hlen; reflexivity|].
  split; [exact Hnum|]. split; [exact Hid|]. split; [exact Hdesc|].
  intros result [Hp Hs]. cbn [rows] in Hp.
  rewrite filter_app in Hp.
  assert (Hnil : filter (fun b => Nat.eqb (revision_id b) rid) (rows s) = []).
  { clear -Hfresh. induction Hfresh as [|b l Hb Hl IH]; simpl; [reflexivity|].
    apply Nat.eqb_neq in Hb. rewrite Hb. exact IH. }
  assert (Hall : filter (fun b => Nat.eqb (revision_id b) rid) created = created).
  { clear -Hrid. induction Hrid as [|b l Hb Hl IH]; simpl; [reflexivity|].
    rewrite Hb, Nat.eqb_refl, IH. reflexivity. }
  rewrite Hnil, Hall in Hp. simpl in Hp.
  apply (sorted_seq_unique result created Hp Hs).
  apply (strongly_sorted_seq created 1 (length items) Hnum).
Qed.

Lemma build_total rid items : forall idx next,
  Forall (fun it => d_description it <> None) items ->
  exists created, build rid idx next items = inr created.
Proof.
  induction items as [|it rest IH]; intros idx next Hall; [exists []; reflexivity|].
  inversion Hall as [|? ? Hit Hrest]; subst. simpl.
  destruct (d_description it) as [desc|]; [|contradiction].
  destruct (IH (S idx) (S next) Hrest) as [l El]. rewrite El. eexists. reflexivity.
Qed.

Lemma create_items_rows revision_ids s rid items created s' :
  create_items revision_ids s rid items = inr (created, s') ->
  rows s' = rows s ++ created /\ map item_number created = seq 1 (length items) /\
  Forall (fun b => revision_id b = rid) created.
Proof.
  unfold create_items. intros Hrun.
  destruct (build rid 1 (next_id s) items) as [e|c] eqn:Eb; [discriminate|].
  destruct (flush revision_ids (rows s) c) as [e|rows'] eqn:Ef; [discriminate|].
  inversion Hrun; subst c s'. apply flush_ok in Ef. subst rows'.
  destruct (build_shape _ _ _ _ _ Eb) as (Hnum & _ & Hrid & _).
  split; [reflexivity|]. split; assumption.
Qed.

(** X19: after a successful [create_items] with at least one item, a
    second [create_items] with at least one item for the same revision
    always raises [IntegrityError] on [uq_bom_item_number]: both batches
    number from 1. *)
Theorem create_items_twice_conflicts revision_ids s rid items1 created s' items2
    (Hrun1 : create_items revision_ids s rid items1 = inr (created, s'))
    (Hne1 : items1 <> [])
    (Hdesc2 : Forall (fun it => d_description it <> None) items2)
    (Hne2 : items2 <> []) :
  create_items revision_ids s' rid items2 = inl (BomIntegrityError "uq_bom_item_number").
Proof.
  destruct (create_items_rows _ _ _ _ _ _ Hrun1) as (Hrows & Hnum1 & Hrid1).
  assert (Hfirst : exists b, In b (rows s') /\ revision_id b = rid /\ item_number b = 1).
  { destruct created as [|b c]; [destruct items1; [contradiction|discriminate]|].
    exists b. rewrite Hrows. split; [apply in_or_app; right; left; reflexivity|].
    split; [inversion Hrid1; assumption|].
    destruct items1; [contradiction|]. simpl in Hnum1. injection Hnum1 as H _. exact H. }
  destruct Hfirst as (b & Hb & Hbr & Hbn).
  unfold create_items.
  destruct (build_total rid items2 1 (next_id s') Hdesc2) as [c2 Eb]. rewrite Eb.
  destruct (build_shape _ _ _ _ _ Eb) as (Hnum2 & _ & Hrid2 & _).
  destruct c2 as [|r c2]; [destruct items2; [contradiction|discriminate]|].
  destruct items2 as [|it items2]; [contradiction|].
  simpl in Hnum2. injection Hnum2 as Hr _. pose proof (Forall_inv Hrid2) as Hrr. cbv beta in Hrr.
  simpl. replace (existsb _ (rows s')) with true; [reflexivity|].
  symmetry. apply existsb_exists. exists b. split; [exact Hb|].
  rewrite Hbr, Hbn, Hrr, Hr, !Nat.eqb_refl. reflexivity.
Qed.

Definition item (desc : string) : ItemData :=
  mkItemData (Some desc) None None None None None None None.

Lemma create_items_numbering_witness :
  exists created s',
    Forall (fun b => revision_id b <> 1) (rows (mkBomStore [] 1)) /\
    create_items [1] (mkBomStore [] 1) 1 [item "Placa base"; item "Perno M12"]
      = inr (created, s') /\
    map item_number created = [1; 2].
Proof.
  do 2 eexists. split; [constructor|]. split; [reflexivity|].
  match goal with
  | |- map item_number ?created = _ =>
      destruct (create_items_numbering [1] (mkBomStore [] 1) 1
                  [item "Placa base"; item "Perno M12"] created _ (Forall_nil _) eq_refl)
        as (_ & _ & Hnum & _)
  end.
  rewrite Hnum. reflexivity.
Defined.

Lemma create_items_twice_conflicts_witness :
  exists created s',
    create_items [1] (mkBomStore [] 1) 1 [item "Placa base"] = inr (created, s') /\
    Forall (fun it => d_description it <> None) [item "Tuerca M12"] /\
    create_items [1] s' 1 [item "Tuerca M12"] = inl (BomIntegrityError "uq_bom_item_number").
Proof.
  do 2 eexists. split; [reflexivity|].
  assert (Hd : Forall (fun it => d_description it <> None) [item "Tuerca M12"])
    by (repeat constructor; discriminate).
  split; [exact Hd|].
  match goal with
  | |- create_items _ ?s' _ _ = _ =>
      exact (create_items_twice_conflicts [1] (mkBomStore [] 1) 1 [item "Placa base"] _ s'
               [item "Tuerca M12"] eq_refl ltac:(discriminate) Hd ltac:(discriminate))
  end.
Defined.

End Bom.

(* ------------------------------------------------------------------ *)
(** ** models.py [Design.latest_revision] against
    [RevisionRepository.get_latest_for_design] *)

Module LatestRevision.

Import Store StoreMore.

(** [self.revisions[-1] if self.revisions else None], where
    [self.revisions] is the relationship ordered by [generated_at]: one
    of the [get_by_design] orders. *)
Definition latest_revision (revisions : list Revision) : option Revision :=
  match revisions with
  | [] => None
  | r :: _ => Some (last revisions r)
  end.

(** Along the design's rows, a larger id has a later [generated_at]. *)
Definition clock_follows_ids (s : Store) (d : nat) : bool :=
  let rs := rows_of_design s d in
  forallb (fun a => forallb (fun b => negb (Nat.ltb (id a) (id b))
                                      || String.ltb (generated_at a) (generated_at b)) rs) rs.

Lemma latest_step_max l : forall init m,
  fold_left (fun best r =>
               match best with
               | Some b => if Nat.ltb (id b) (id r) then Some r else Some b
               | None => Some r
               end) l init = Some m ->
  (init = Some m \/ In m l) /\ (forall r, In r l -> id r <= id m) /\
  (forall b, init = Some b -> id b <= id m).
Proof.
  induction l as [|r l IH]; intros init m H; simpl in H.
  - subst init. split; [left; reflexivity|]. split; [intros r []|].
    intros b Hb. inversion Hb. lia.
  - destruct (IH _ _ H) as (Hin & Hle & Hinit).
    destruct init as [b0|].
    + destruct (Nat.ltb (id b0) (id r)) eqn:E.
      * apply Nat.ltb_lt in E. pose proof (Hinit r eq_refl).
        split; [destruct Hin as [Hin|Hin]; [inversion Hin; subst; right; left; reflexivity|right; right; exact Hin]|].
        split; [intros x [<-|Hx]; [lia|apply Hle, Hx]|].
        intros b Hb. inversion Hb; subst. lia.
      * apply Nat.ltb_ge in E. pose proof (Hinit b0 eq_refl).
        split; [destruct Hin as [Hin|Hin]; [left; exact Hin|right; right; exact Hin]|].
        split; [intros x [<-|Hx]; [lia|apply Hle, Hx]|].
        intros b Hb. inversion Hb; subst. lia.
    + pose proof (Hinit r eq_refl).
      split; [destruct Hin as [Hin|Hin]; [inversion Hin; subst; right; left; reflexivity|right; right; exact Hin]|].
      split; [intros x [<-|Hx]; [lia|apply Hle, Hx]|].
      intros b Hb. discriminate.
Qed.

Lemma latest_step_none l : forall init,
  fold_left (fun best r =>
               match best with
               | Some b => if Nat.ltb (id b) (id r) then Some r else Some b
               | None => Some r
               end) l init = None -> init = None /\ l = [].
Proof.
  induction l as [|r l IH]; intros init H; simpl in H; [split; [exact H|reflexivity]|].
  destruct (IH _ H) as [Hi _]. destruct init as [b|]; [destruct (Nat.ltb _ _)|]; discriminate.
Qed.

Lemma nodup_map_inj {A B} (f : A -> B) l x y :
  NoDup (map f l) -> In x l -> In y l -> f x = f y -> x = y.
Proof.
  induction l as [|z l IH]; intros Hnd Hx Hy E; [destruct Hx|].
  simpl in Hnd. inversion Hnd as [|? ? Hz Hl]; subst.
  destruct Hx as [<-|Hx], Hy as [<-|Hy]; [reflexivity| | |exact (IH Hl Hx Hy E)].
  - exfalso. apply Hz. rewrite E. apply in_map, Hy.
  - exfalso. apply Hz. rewrite <- E. apply in_map, Hx.
Qed.

(** X20: when ids are distinct and, along the design's rows, a larger
    id always has a later [generated_at], [Design.latest_revision] under
    every order the relationship may load agrees with
    [get_latest_for_design] (which orders by id). *)
Theorem latest_revision_agrees s d
    (Hids : NoDup (map id (rows_of_design s d)))
    (Hclock : clock_follows_ids s d = true) :
  forall res, get_by_design_result s d res ->
  latest_revision res = get_latest_for_design s d.
Proof.
  intros res [Hperm Hsorted].
  unfold get_latest_for_design.
  destruct (fold_left _ (rows_of_design s d) None) as [m|] eqn:E.
  - destruct (latest_step_max _ _ _ E) as ([Hm|Hm] & Hle & _); [discriminate|].
    assert (Hmr : In m res) by (apply (Permutation_in _ (Permutation_sym Hperm)), Hm).
    assert (Hnd : NoDup res)
      by (apply (Permutation_NoDup (Permutation_sym Hperm)), (NoDup_map_inv id), Hids).
    apply in_split in Hmr as (a & b & ->).
    destruct b as [|y b].
    + destruct a as [|x a]; [reflexivity|]. simpl. f_equal.
      change (last ((x :: a) ++ [m]) x = m). apply last_last.
    + exfalso.
      assert (Hy : In y (rows_of_design s d))
        by (apply (Permutation_in _ Hperm), in_or_app; right; right; left; reflexivity).
      assert (Hne : y <> m).
      { intros ->. apply NoDup_remove_2 in Hnd. apply Hnd, in_or_app. right. left. reflexivity. }
      assert (Hlt : id y < id m).
      { pose proof (Hle y Hy). destruct (Nat.eq_dec (id y) (id m)) as [Ei|]; [|lia].
        exfalso. exact (Hne (nodup_map_inj id _ y m Hids Hy Hm Ei)). }
      unfold clock_follows_ids in Hclock.
      pose proof (proj1 (forallb_forall _ _) Hclock y Hy) as Hc. cbv beta in Hc.
      pose proof (proj1 (forallb_forall _ _) Hc m Hm) as Hc'. cbv beta in Hc'.
      apply Nat.ltb_lt in Hlt. rewrite Hlt in Hc'. simpl in Hc'.
      pose proof (StoreMore.sorted_middle _ a m y b Hsorted) as Hmy. unfold ts_le in Hmy.
      rewrite (ltb_not_leb _ _ Hc') in Hmy. discriminate.
  - destruct (latest_step_none _ _ E) as [_ Hnil]. rewrite Hnil in Hperm.
    apply Permutation_sym, Permutation_nil in Hperm. subst res. reflexivity.
Qed.

Definition rev_A1 := AllocationOrder.mk_row 1 "A" "2026-01-01T10:00:00.400000+00:00".
Definition rev_B1 := AllocationOrder.mk_row 2 "B" "2026-01-01T10:00:00.500000+00:00".

Lemma latest_revision_agrees_witness :
  NoDup (map id (rows_of_design (mkStore [rev_A1; rev_B1] 3) 1)) /\
  clock_follows_ids (mkStore [rev_A1; rev_B1] 3) 1 = true /\
  latest_revision [rev_A1; rev_B1] = get_latest_for_design (mkStore [rev_A1; rev_B1] 3) 1 /\
  get_latest_for_design (mkStore [rev_A1; rev_B1] 3) 1 = Some rev_B1.
Proof.
  assert (Hnd : NoDup (map id (rows_of_design (mkStore [rev_A1; rev_B1] 3) 1)))
    by (repeat constructor; simpl; lia).
  assert (Hc : clock_follows_ids (mkStore [rev_A1; rev_B1] 3) 1 = true) by reflexivity.
  split; [exact Hnd|]. split; [exact Hc|]. split; [|reflexivity].
  apply (latest_revision_agrees _ 1 Hnd Hc).
  split; [reflexivity|]. repeat constructor.
Defined.

End LatestRevision.
